(** * vtk-widget-demo: the import pipeline's glue code, embedded and verified

    The development follows four source files:
    - [src/actions/loadUserFiles.ts]: the primary-selection heuristic
      ([findBaseDicom], [isSegmentation], [findBaseImage],
      [findBaseDataSource]) and the batch driver ([loadDataSources],
      [wrapWithLoading], [loadFiles]);
    - [src/io/zip.ts]: [extractFilesFromZip];
    - the single-file import handler [importSingleFile];
    - the view-config store ([removeView], [removeData], [serialize],
      [deserialize]).

    Part I holds the model (the JavaScript runtime fragments the code relies
    on, the data model, the functions), Part II the theorems. *)

From Stdlib Require Import ZArith Lia Ascii String.
From stdpp Require Import base option list sorting strings gmap.

Local Open Scope Z_scope.

(* ===================================================================== *)
(** * Part I: the model *)
(* ===================================================================== *)

(** ** Fragments of the JavaScript runtime *)

Module Js.

(** [Maybe<T> = T | null | undefined]. *)
Inductive Maybe (A : Type) : Type :=
| Null
| Undefined
| Just (a : A).
Global Arguments Null {A}.
Global Arguments Undefined {A}.
Global Arguments Just {A} a.

(** A string inside a template literal: [`${v}`]. *)
Definition template (v : Maybe string) : string :=
  match v with
  | Null => "null"
  | Undefined => "undefined"
  | Just s => s
  end.

(** Truthiness of an optional number ([undefined] and [0] are falsy; the
    numbers of this model are integers, so [NaN] does not arise here). *)
Definition truthy_number (v : option Z) : bool :=
  match v with
  | Some n => negb (n =? 0)
  | None => false
  end.

(** The result of an arithmetic expression: an integer, or [NaN] when an
    operand was [undefined]. *)
Inductive number : Type :=
| NaN
| Num (z : Z).

(** [a - b] on operands that may be [undefined]. *)
Definition minus (a b : option Z) : number :=
  match a, b with
  | Some x, Some y => Num (x - y)
  | _, _ => NaN
  end.

(** [v !== 0]. *)
Definition strict_neq_zero (v : number) : bool :=
  match v with
  | NaN => true
  | Num z => negb (z =? 0)
  end.

(** [String.prototype.split] for a one-character separator: the pieces
    between the separators, [""] giving [[""]]. *)
Fixpoint split (sep : ascii) (s : string) : list string :=
  match s with
  | EmptyString => [EmptyString]
  | String c rest =>
      if Ascii.eqb c sep then EmptyString :: split sep rest
      else match split sep rest with
           | [] => [String c EmptyString]
           | piece :: pieces => String c piece :: pieces
           end
  end.

(** [Array.prototype.slice(1)]. *)
Definition slice1 {A} (l : list A) : list A := tail l.

(** [Array.prototype.includes] on strings. *)
Definition includes (l : list string) (x : string) : bool :=
  existsb (String.eqb x) l.

(** The line feed of ['\n']. *)
Definition LF : string := String (ascii_of_nat 10) EmptyString.

(** [Array.prototype.join]. *)
Definition join (sep : string) (l : list string) : string :=
  String.concat sep l.

(** [SortCompare] of ECMAScript's [Array.prototype.sort]: the comparator's
    result, [NaN] read as [+0]. *)
Definition SortCompare {A} (comparefn : A → A → number) (x y : A) : Z :=
  match comparefn x y with
  | NaN => 0
  | Num v => v
  end.

(** [Array.prototype.sort(comparefn)], as a stable insertion sort: an element
    moves behind a later one only when the comparator puts it strictly after.
    ECMAScript fixes the sorted order only for a comparator that is consistent
    on the array; the theorems below use the sort on arrays where it is. *)
Fixpoint sort_insert {A} (comparefn : A → A → number) (x : A) (l : list A)
  : list A :=
  match l with
  | [] => [x]
  | y :: l' =>
      if 0 <? SortCompare comparefn x y
      then y :: sort_insert comparefn x l'
      else x :: l
  end.

Definition sort {A} (comparefn : A → A → number) (l : list A) : list A :=
  foldr (sort_insert comparefn) [] l.

(** The [in] operator on an object literal: a key is a property when it is an
    own key of the literal or a key every object inherits from
    [Object.prototype]. *)
Definition Object_prototype_keys : list string :=
  [ "constructor"; "hasOwnProperty"; "isPrototypeOf"; "propertyIsEnumerable";
    "toLocaleString"; "toString"; "valueOf"; "__proto__";
    "__defineGetter__"; "__defineSetter__"; "__lookupGetter__";
    "__lookupSetter__" ].

Definition own_property {V} (key : string) (obj : list (string * V)) : option V :=
  snd <$> find (λ kv, String.eqb key (fst kv)) obj.

Definition has_property {V} (key : string) (obj : list (string * V)) : bool :=
  match own_property key obj with
  | Some _ => true
  | None => includes Object_prototype_keys key
  end.

(** How a statement or a call completes: normally with a value, or abruptly
    with a thrown error. *)
Inductive JsError : Type :=
| Error (message : string)
| TypeError (message : string).

Inductive Completion (A : Type) : Type :=
| Return (a : A)
| Throw (e : JsError).
Global Arguments Return {A} a.
Global Arguments Throw {A} e.

(** Effectful code over a state [S]: the completion and the state left. *)
Definition Eff (S A : Type) : Type := S → Completion A * S.

Definition ret {S A} (a : A) : Eff S A := λ s, (Return a, s).

Definition throw {S A} (e : JsError) : Eff S A := λ s, (Throw e, s).

Definition bind {S A B} (m : Eff S A) (k : A → Eff S B) : Eff S B :=
  λ s, match m s with
       | (Return a, s') => k a s'
       | (Throw e, s') => (Throw e, s')
       end.

Definition gets {S A} (f : S → A) : Eff S A := λ s, (Return (f s), s).

Definition modify {S} (f : S → S) : Eff S unit := λ s, (Return tt, f s).

(** [try { body } catch (e) { handler(e) }]. *)
Definition try_catch {S A} (body : Eff S A) (handler : JsError → Eff S A)
  : Eff S A :=
  λ s, match body s with
       | (Return a, s') => (Return a, s')
       | (Throw e, s') => handler e s'
       end.

(** [try { body } finally { cleanup }]: the cleanup runs however the body
    completes; the body's completion stands unless the cleanup throws. *)
Definition try_finally {S A} (body : Eff S A) (cleanup : Eff S unit)
  : Eff S A :=
  λ s, match body s with
       | (c, s') =>
           match cleanup s' with
           | (Return _, s'') => (c, s'')
           | (Throw e, s'') => (Throw e, s'')
           end
       end.

(** The monad structure, so that stdpp's [x ← m; k] and [m;; k] sequence
    effectful code: a throw in [m] skips [k]. *)
#[global] Instance Eff_ret {S} : MRet (Eff S) := λ A, @ret S A.
#[global] Instance Eff_bind {S} : MBind (Eff S) := λ A B k m, @bind S A B m k.

End Js.

(** ** The data model *)

(** A browser [File]: a name and the bytes. *)
Record File : Type := mkFile {
  file_name : string;
  file_bytes : list Byte.byte;
}.

Record FileSource : Type := mkFileSource {
  file : File;
  fileType : string;
}.

(** A [DataSource]: an optional file source, an optional place in a parent
    archive, and the source it was derived from. *)
#[warnings="-register-all"]
Inductive DataSource : Type := mkDataSource {
  fileSrc : option FileSource;
  archiveSrc : option string;
  parent : option DataSource;
}.

Inductive DataType : Type := image | dicom | model.

#[global] Instance DataType_eq_dec : EqDecision DataType.
Proof. solve_decision. Defined.

(** [ImportResult]: [{ dataID, dataSource, dataType }]. A [LoadableResult] is
    an [ImportResult] that passed [isLoadableResult]. *)
Record ImportResult : Type := mkImportResult {
  dataID : string;
  dataSource : DataSource;
  dataType : DataType;
}.

Record PipelineError : Type := mkPipelineError {
  error_message : string;
  cause : Js.JsError;
  inputDataStackTrace : list DataSource;
}.

(** [PipelineResult]: [{ ok: true, data }] or [{ ok: false, errors }]. *)
Inductive PipelineResult : Type :=
| PipelineResultSuccess (data : list ImportResult)
| PipelineResultError (errors : list PipelineError).

Definition ok (r : PipelineResult) : bool :=
  match r with
  | PipelineResultSuccess _ => true
  | PipelineResultError _ => false
  end.

Definition data (r : PipelineResult) : list ImportResult :=
  match r with
  | PipelineResultSuccess d => d
  | PipelineResultError _ => []
  end.

Definition errors (r : PipelineResult) : list PipelineError :=
  match r with
  | PipelineResultSuccess _ => []
  | PipelineResultError e => e
  end.

(** What the DICOM store keeps per volume, as far as the selection reads it. *)
Record VolumeInfo : Type := mkVolumeInfo {
  Modality : string;
  NumberOfSlices : option Z;
}.

Record DicomStore : Type := mkDicomStore {
  volumeInfo : gmap string VolumeInfo;
}.

(** ** The stores and the imported modules

    The stores and helper modules the three files import are not among the
    sources. What the code reads of a store is a field below; what it calls is
    a member of one of the classes, so that every theorem holds for whatever
    the imported module does. *)

Record DatasetStore (DataSelection : Type) : Type := mkDatasetStore {
  primarySelection : option DataSelection;
}.
Global Arguments mkDatasetStore {DataSelection} _.
Global Arguments primarySelection {DataSelection} _.

Record LoadDataStore : Type := mkLoadDataStore {
  segmentGroupExtension : string;
}.

(** What [useDICOMStore()], [useDatasetStore()] and [useLoadDataStore()]
    give access to. *)
Record Stores (DataSelection : Type) : Type := mkStores {
  dicomStore : DicomStore;
  dataStore : DatasetStore DataSelection;
  loadDataStore : LoadDataStore;
}.
Global Arguments mkStores {DataSelection} _ _ _.
Global Arguments dicomStore {DataSelection} _.
Global Arguments dataStore {DataSelection} _.
Global Arguments loadDataStore {DataSelection} _.

(** [src/io/import/dataSource]. *)
Class DataSourceModule : Type := {
  getDataSourceName : option DataSource → Js.Maybe string;
  fileToDataSource : File → DataSource;
}.

(** [src/io/import/common]. *)
Class ImportCommonModule : Type := {
  isLoadableResult : ImportResult → bool;
  isVolumeResult : option ImportResult → bool;
}.

(** [src/io/import/importDataSources]. The import is asynchronous and works
    on the stores; it completes with the results or throws. *)
Class ImportDataSourcesModule (DataSelection : Type) : Type := {
  importDataSources :
    list DataSource → Js.Eff (Stores DataSelection) (list PipelineResult);
  toDataSelection : option ImportResult → DataSelection;
}.

(** [src/utils/path]. *)
Class PathModule : Type := {
  basename : string → string;
  dirname : string → string;
}.

(** ** [src/core/pipeline]: result partitioning *)

Module Pipeline.

(** Modelled from the spec: [partitionResults] of [src/core/pipeline], which
    is not among the sources. The spec gives its contract,
    [partitionResults(results) -> [succeeded, errored]], a pure function that
    classifies every result by its outcome and keeps the relative order
    within each output list. *)
Definition partitionResults (results : list PipelineResult)
  : list PipelineResult * list PipelineResult :=
  (filter (λ r, ok r = true) results, filter (λ r, ok r = false) results).

End Pipeline.

(** ** [src/actions/loadUserFiles.ts]: the primary-selection heuristic *)

Module LoadUserFiles.

(** higher value priority is preferred for picking a primary selection *)
Definition BASE_MODALITY_TYPES : list (string * Z) :=
  [("CT", 3); ("MR", 3); ("US", 2); ("DX", 1)].

(** One element of [baseDicomVolumes]. The priority is [undefined] when the
    modality names an inherited property of the table. *)
Record BaseDicomVolume : Type := mkBaseDicomVolume {
  dicomSource : ImportResult;
  priority : option Z;
  baseVolumeInfo : VolumeInfo;
}.

(** The callback of [dicoms.map]. A volume the store does not know has the
    modality [undefined], which is no property of the table. *)
Definition toBaseDicomVolume (dicomStore : DicomStore) (dicomSource : ImportResult)
  : option BaseDicomVolume :=
  match volumeInfo dicomStore !! dataID dicomSource with
  | None => None
  | Some info =>
      let modality := Modality info in
      if Js.has_property modality BASE_MODALITY_TYPES
      then Some {| dicomSource := dicomSource;
                   priority := Js.own_property modality BASE_MODALITY_TYPES;
                   baseVolumeInfo := info |}
      else None
  end.

(** The candidate [toBaseDicomVolume] gives for a result whose volume [info]
    has a listed modality (used to state the theorems). *)
Definition candidateOf (r : ImportResult) (info : VolumeInfo) : BaseDicomVolume :=
  {| dicomSource := r;
     priority := Js.own_property (Modality info) BASE_MODALITY_TYPES;
     baseVolumeInfo := info |}.

(** The comparator handed to [sort]. *)
Definition compareBaseDicomVolumes (va vb : BaseDicomVolume) : Js.number :=
  let a := priority va in
  let b := priority vb in
  let infoA := baseVolumeInfo va in
  let infoB := baseVolumeInfo vb in
  let priorityDiff := Js.minus a b in
  if Js.strict_neq_zero priorityDiff then priorityDiff
  (* same modality, then more slices preferred *)
  else if negb (Js.truthy_number (NumberOfSlices infoA)) then Js.Num 1
  else if negb (Js.truthy_number (NumberOfSlices infoB)) then Js.Num (-1)
  else Js.minus (NumberOfSlices infoB) (NumberOfSlices infoA).

Definition findBaseDicom (dicomStore : DicomStore)
  (loadableDataSources : list ImportResult) : option ImportResult :=
  (* find dicom dataset for primary selection if available *)
  let dicoms := filter (λ r, dataType r = dicom) loadableDataSources in
  (* prefer some modalities as base *)
  let baseDicomVolumes :=
    Js.sort compareBaseDicomVolumes (omap (toBaseDicomVolume dicomStore) dicoms) in
  match baseDicomVolumes with
  | first :: _ => Some (dicomSource first)
  | [] => None
  end.

Definition isSegmentation (extension : string) (name : string) : bool :=
  if String.eqb extension "" then false (* avoid 'foo..bar' if extension is '' *)
  else
    let extensions := Js.slice1 (Js.split "." name) in
    Js.includes extensions extension.

(** The callback of the second [filter] of [findBaseImage]. *)
Definition hasBaseImageName `{DataSourceModule}
  (segmentGroupExtension : string) (importResult : ImportResult) : bool :=
  match getDataSourceName (Some (dataSource importResult)) with
  | Js.Just name =>
      if String.eqb name "" then false
      else negb (isSegmentation segmentGroupExtension name)
  | Js.Null | Js.Undefined => false
  end.

(** does not pick segmentation images *)
Definition findBaseImage `{DataSourceModule}
  (loadableDataSources : list ImportResult) (segmentGroupExtension : string)
  : option ImportResult :=
  let baseImages :=
    filter (λ importResult,
              hasBaseImageName segmentGroupExtension importResult = true)
      (filter (λ r, dataType r = image) loadableDataSources) in
  match baseImages with
  | first :: _ => Some first
  | [] => None
  end.

(** A name is a segmentation name when the dot-separated tokens after the
    first include the extension token; the empty extension names none. *)
Definition segmentationName (extension name : string) : Prop :=
  extension ≠ "" ∧ extension ∈ tail (Js.split "." name).

(** What [findBaseImage] looks for: a result of kind image with a display
    name, not empty, that is no segmentation name. *)
Definition baseImageCandidate `{DataSourceModule}
  (segmentGroupExtension : string) (r : ImportResult) : Prop :=
  dataType r = image
  ∧ ∃ name, getDataSourceName (Some (dataSource r)) = Js.Just name
            ∧ name ≠ ""
            ∧ ¬ segmentationName segmentGroupExtension name.

(** The spec's wording of the image fallback, to compare [findBaseImage]
    with: among the results of kind image, those whose display name is a
    segmentation name are excluded, and the first one left wins. *)
Definition spec_excluded `{DataSourceModule}
  (segmentGroupExtension : string) (r : ImportResult) : bool :=
  match getDataSourceName (Some (dataSource r)) with
  | Js.Just name => isSegmentation segmentGroupExtension name
  | Js.Null | Js.Undefined => false
  end.

Definition spec_findBaseImage `{DataSourceModule}
  (loadableDataSources : list ImportResult) (segmentGroupExtension : string)
  : option ImportResult :=
  head (filter (λ r, spec_excluded segmentGroupExtension r = false)
          (filter (λ r, dataType r = image) loadableDataSources)).

(** returns image and dicom sources, no config files *)
Definition filterLoadableDataSources `{ImportCommonModule}
  (succeeded : list PipelineResult) : list ImportResult :=
  succeeded ≫= (λ result, filter (λ r, isLoadableResult r = true) (data result)).

Definition findBaseDataSource `{DataSourceModule} `{ImportCommonModule}
  (dicomStore : DicomStore) (succeeded : list PipelineResult)
  (segmentGroupExtension : string) : option ImportResult :=
  let loadableDataSources := filterLoadableDataSources succeeded in
  match findBaseDicom dicomStore loadableDataSources with
  | Some baseDicom => Some baseDicom
  | None =>
      match findBaseImage loadableDataSources segmentGroupExtension with
      | Some baseImage => Some baseImage
      | None => head loadableDataSources
      end
  end.

(** *** The batch driver *)

(** The calls [loadDataSources] makes on its collaborators, in order. *)
Inductive Call (DataSelection : Type) : Type :=
| CallStartLoading
| CallStopLoading
| CallImportDataSources (sources : list DataSource)
| CallSetPrimarySelection (selection : DataSelection)
| CallLogError (cause : Js.JsError)
| CallSetError (error : Js.JsError).
Global Arguments CallStartLoading {DataSelection}.
Global Arguments CallStopLoading {DataSelection}.
Global Arguments CallImportDataSources {DataSelection} _.
Global Arguments CallSetPrimarySelection {DataSelection} _.
Global Arguments CallLogError {DataSelection} _.
Global Arguments CallSetError {DataSelection} _.

(** The state a run works on: the stores, and the calls made so far. *)
Record World (DataSelection : Type) : Type := mkWorld {
  stores : Stores DataSelection;
  calls : list (Call DataSelection);
}.
Global Arguments mkWorld {DataSelection} _ _.
Global Arguments stores {DataSelection} _.
Global Arguments calls {DataSelection} _.

Section Driver.
Context {DataSelection : Type}.
Context `{DataSourceModule} `{ImportCommonModule}.
Context `{!ImportDataSourcesModule DataSelection}.

Local Abbreviation Run := (Js.Eff (World DataSelection)).

Definition call (c : Call DataSelection) : Run unit :=
  Js.modify (λ w, {| stores := stores w; calls := calls w ++ [c] |}).

Definition startLoading : Run unit := call CallStartLoading.

Definition stopLoading : Run unit := call CallStopLoading.

Definition setError (error : Js.JsError) : Run unit := call (CallSetError error).

Definition logError (cause : Js.JsError) : Run unit := call (CallLogError cause).

(** Modelled from the spec: [setPrimarySelection] of the dataset store, which
    is not among the sources. The selection it is given becomes the store's
    primary selection. *)
Definition setPrimarySelection (selection : DataSelection) : Run unit :=
  call (CallSetPrimarySelection selection);;
  Js.modify (λ w,
    {| stores := {| dicomStore := dicomStore (stores w);
                    dataStore := {| primarySelection := Some selection |};
                    loadDataStore := loadDataStore (stores w) |};
       calls := calls w |}).

(** An operation of an imported module works on the stores and leaves the
    record of calls alone. *)
Definition onStores {A} (m : Js.Eff (Stores DataSelection) A) : Run A :=
  λ w, match m (stores w) with
       | (c, stores') => (c, {| stores := stores'; calls := calls w |})
       end.

(** [await importDataSources(sources)]. *)
Definition awaitImportDataSources (sources : list DataSource)
  : Run (list PipelineResult) :=
  call (CallImportDataSources sources);;
  onStores (importDataSources sources).

(** The callback of [errored.map]. Destructuring an empty [errors] leaves
    [firstError] undefined, and reading a property of it throws. *)
Definition errorMessage (errResult : PipelineResult) : Run string :=
  (* pick first error *)
  match errors errResult with
  | [] =>
      Js.throw (Js.TypeError
        "Cannot read properties of undefined (reading 'inputDataStackTrace')")
  | firstError :: _ =>
      (* pick innermost dataset that errored *)
      let name := getDataSourceName (head (inputDataStackTrace firstError)) in
      (* log error for debugging *)
      logError (cause firstError);;
      mret ("- " +:+ Js.template name +:+ ": " +:+ error_message firstError)
  end.

(** The entry of an errored result in the aggregate message, in the spec's
    words: ["- <name>: <message>"], the message being the result's first error
    message and the name the display name of entry 0 of that error's stack
    trace. *)
Definition spec_errorEntry (errResult : PipelineResult) : string :=
  match errors errResult with
  | [] => ""
  | firstError :: _ =>
      "- " +:+ Js.template (getDataSourceName (head (inputDataStackTrace firstError)))
      +:+ ": " +:+ error_message firstError
  end.

(** The aggregate message as the spec words it: the newline-joined list of
    the entries. *)
Definition spec_aggregateMessage (errored : list PipelineResult) : string :=
  Js.join Js.LF (spec_errorEntry <$> errored).

(** The errors [setError] was called with, among the calls of a run. *)
Definition setErrorCalls (trace : list (Call DataSelection)) : list Js.JsError :=
  omap (λ c, match c with CallSetError e => Some e | _ => None end) trace.

(** The selections [setPrimarySelection] was called with. *)
Definition setPrimarySelectionCalls (trace : list (Call DataSelection))
  : list DataSelection :=
  omap (λ c, match c with CallSetPrimarySelection s => Some s | _ => None end) trace.

(** The calls of the error report before [setError]: the [logError]s. *)
Definition loggingCall (c : Call DataSelection) : Prop :=
  match c with
  | CallLogError _ => True
  | _ => False
  end.

(** The calls [load] makes after the import: on the primary selection, the
    log and the error. *)
Definition reportingCall (c : Call DataSelection) : Prop :=
  match c with
  | CallSetPrimarySelection _ | CallLogError _ | CallSetError _ => True
  | CallStartLoading | CallStopLoading | CallImportDataSources _ => False
  end.

(** The first [if] of [load]: without a primary selection and with a
    succeeded result, pick the base data source and select it. *)
Definition selectPrimary (succeeded : list PipelineResult) : Run unit :=
  currentSelection ← Js.gets (λ w, primarySelection (dataStore (stores w)));
  if negb (bool_decide (is_Some currentSelection))
     && negb (bool_decide (succeeded = []))
  then
    extension ← Js.gets (λ w, segmentGroupExtension (loadDataStore (stores w)));
    dicoms ← Js.gets (λ w, dicomStore (stores w));
    let primaryDataSource := findBaseDataSource dicoms succeeded extension in
    if isVolumeResult primaryDataSource
    then setPrimarySelection (toDataSelection primaryDataSource)
    else mret tt (* then must be primaryDataSource.type === 'model' *)
  else mret tt.

(** The second [if] of [load]: report the errored results, if any. *)
Definition reportErrors (errored : list PipelineResult) : Run unit :=
  if negb (bool_decide (errored = []))
  then
    errorMessages ← mapM errorMessage errored;
    let failedError :=
      Js.Error ("These files failed to load:" +:+ Js.LF
                +:+ Js.join Js.LF errorMessages) in
    setError failedError
  else mret tt.

(** The body of [load] after the import returned. *)
Definition loadResults (results : list PipelineResult) : Run unit :=
  let '(succeeded, errored) := Pipeline.partitionResults results in
  selectPrimary succeeded;;
  reportErrors errored.

Definition load (sources : list DataSource) : Run unit :=
  imported ← Js.try_catch
                (results ← awaitImportDataSources sources; mret (Some results))
                (λ error, setError error;; mret None);
  match imported with
  | None => mret tt (* the [return] of the catch block *)
  | Some results => loadResults results
  end.

Definition wrapWithLoading (fn : Run unit) : Run unit :=
  Js.try_finally (startLoading;; fn) stopLoading.

Definition loadDataSources (sources : list DataSource) : Run unit :=
  wrapWithLoading (load sources).

Definition loadFiles (files : list File) : Run unit :=
  let dataSources := map fileToDataSource files in
  loadDataSources dataSources.

End Driver.

End LoadUserFiles.

(** ** [src/io/zip.ts]: archive expansion *)

Module Zip.

(** An entry of a loaded archive, as JSZip presents it: its name, whether it
    is a directory, and what [async('blob')] resolves to (or rejects with). *)
Record ZipObject : Type := mkZipObject {
  name : string;
  dir : bool;
  async_blob : Js.Completion (list Byte.byte);
}.

(** A loaded archive: the entries of [zip.files], in the order [forEach]
    enumerates them. [zip.files] is an object keyed by entry name, so the names
    of a loaded archive are pairwise distinct ([wellFormed]). *)
Record JSZip : Type := mkJSZip {
  files : list ZipObject;
}.

Definition wellFormed (zip : JSZip) : Prop := NoDup (name <$> files zip).

(** The [jszip] package: opening an archive can fail. *)
Class JSZipModule : Type := {
  loadAsync : File → Js.Completion JSZip;
}.

(** [zip.file(name)]: the entry of that name unless it is a directory. *)
Definition zip_file (zip : JSZip) (entryName : string) : option ZipObject :=
  match find (λ obj, String.eqb (name obj) entryName) (files zip) with
  | Some obj => if dir obj then None else Some obj
  | None => None
  end.

(** [promise.then(f)]. *)
Definition then_ {A B} (promise : Js.Completion A) (f : A → B) : Js.Completion B :=
  match promise with
  | Js.Return a => Js.Return (f a)
  | Js.Throw e => Js.Throw e
  end.

(** [Promise.all]: the values in the order of the promises, or a rejection. *)
Fixpoint Promise_all {A} (promises : list (Js.Completion A))
  : Js.Completion (list A) :=
  match promises with
  | [] => Js.Return []
  | Js.Throw e :: _ => Js.Throw e
  | Js.Return a :: rest => then_ (Promise_all rest) (cons a)
  end.

(** One element of the result: [{ file, archivePath }]. [archivePath] is
    [paths[index]], which is [undefined] past the end of [paths]. *)
Record ExtractedFile : Type := mkExtractedFile {
  file : File;
  archivePath : option string;
}.

Section Extract.
Context `{PathModule} `{JSZipModule}.

(** The callback of [zip.forEach], on the two arrays it pushes to. *)
Definition forEachCallback (zip : JSZip)
  (arrays : list (Js.Completion File) * list string) (file : ZipObject)
  : list (Js.Completion File) * list string :=
  let '(promises, paths) := arrays in
  if negb (dir file) then
    let fileName := basename (name file) in
    let path := dirname (name file) in
    match zip_file zip (name file) with
    | Some fileEntry =>
        (promises ++ [then_ (async_blob fileEntry) (λ blob, mkFile fileName blob)],
         paths ++ [path])
    | None => arrays
    end
  else arrays.

Definition extractFilesFromZip (zipFile : File) : Js.Completion (list ExtractedFile) :=
  match loadAsync zipFile with
  | Js.Throw e => Js.Throw e
  | Js.Return zip =>
      let '(promises, paths) := foldl (forEachCallback zip) ([], []) (files zip) in
      then_ (Promise_all promises)
        (λ files, imap (λ index file,
                          {| file := file; archivePath := paths !! index |})
                    files)
  end.

End Extract.

(** Modelled from the spec: [basename] and [dirname] of [src/utils/path],
    which is not among the sources. The spec has the child's name be the
    basename within the archive and its [archivePath] the directory path
    within the archive, the empty string for a root-level entry. *)
Definition spec_basename (path : string) : string :=
  default path (last (Js.split "/" path)).

Definition spec_dirname (path : string) : string :=
  Js.join "/" (removelast (Js.split "/" path)).

End Zip.

(** ** The single-file import handler *)

Module ImportSingleFile.

(** [src/io]: the registry of readers by file type, and the test a decoded
    object answers about its kind. A reader is asynchronous and may fail. *)
Class ReadersModule (DataObject : Type) : Type := {
  FILE_READERS : gmap string (File → Js.Completion DataObject);
  isA : DataObject → string → bool;
}.

(** [src/store/images]: registering a decoded image gives its id. *)
Class ImageStoreModule (DataObject ImageStore : Type) : Type := {
  addVTKImageData : string → DataObject → ImageStore → string * ImageStore;
}.

(** [src/store/files]. *)
Class FileStoreModule (FileStore : Type) : Type := {
  fileStore_add : string → list DataSource → FileStore → FileStore;
}.

(** What a handler returns: a data source for the next handler, or what
    [done] returned. *)
Inductive HandlerReturn : Type :=
| Continue (dataSource : DataSource)
| Done.

(** The stores the handler works on, and what [done] was called with. *)
Record HandlerState (ImageStore FileStore : Type) : Type := mkHandlerState {
  imageStore : ImageStore;
  fileStore : FileStore;
  doneCalls : list ImportResult;
}.
Global Arguments mkHandlerState {ImageStore FileStore} _ _ _.
Global Arguments imageStore {ImageStore FileStore} _.
Global Arguments fileStore {ImageStore FileStore} _.
Global Arguments doneCalls {ImageStore FileStore} _.

Section Handler.
Context {DataObject ImageStore FileStore : Type}.
Context `{!ReadersModule DataObject}.
Context `{!ImageStoreModule DataObject ImageStore}.
Context `{!FileStoreModule FileStore}.

Local Abbreviation Handler := (Js.Eff (HandlerState ImageStore FileStore)).

(** [Map.prototype.has] and [Map.prototype.get]. *)
Definition Map_has {V} (m : gmap string V) (key : string) : bool :=
  bool_decide (is_Some (m !! key)).

Definition Map_get {V} (m : gmap string V) (key : string) : option V := m !! key.

(** [await reader(file)]. *)
Definition await {A} (promise : Js.Completion A) : Handler A :=
  λ s, (promise, s).

(** [useImageStore().addVTKImageData(name, dataObject)]. *)
Definition imageStore_addVTKImageData (name : string) (dataObject : DataObject)
  : Handler string :=
  λ s, match addVTKImageData name dataObject (imageStore s) with
       | (dataID, images) =>
           (Js.Return dataID,
            {| imageStore := images; fileStore := fileStore s;
               doneCalls := doneCalls s |})
       end.

(** [fileStore.add(dataID, sources)]. *)
Definition fileStore_add_ (dataID : string) (sources : list DataSource)
  : Handler unit :=
  Js.modify (λ s,
    {| imageStore := imageStore s;
       fileStore := fileStore_add dataID sources (fileStore s);
       doneCalls := doneCalls s |}).

(** The [done] of the handler's context: it takes the result and returns the
    value that ends the branch. *)
Definition done (result : ImportResult) : Handler HandlerReturn :=
  Js.modify (λ s,
    {| imageStore := imageStore s; fileStore := fileStore s;
       doneCalls := doneCalls s ++ [result] |});;
  mret Done.

(** Reads and imports a file DataSource. *)
Definition importSingleFile (dataSource : DataSource) : Handler HandlerReturn :=
  match fileSrc dataSource with
  | None => mret (Continue dataSource)
  | Some fileSrc =>
      if negb (Map_has FILE_READERS (fileType fileSrc))
      then mret (Continue dataSource)
      else
        match Map_get FILE_READERS (fileType fileSrc) with
        | None => Js.throw (Js.TypeError "reader is not a function")
        | Some reader =>
            dataObject ← await (reader (file fileSrc));
            if isA dataObject "vtkImageData"
            then
              dataID ← imageStore_addVTKImageData
                         (file_name (file fileSrc)) dataObject;
              fileStore_add_ dataID [dataSource];;
              done {| dataID := dataID; dataSource := dataSource;
                      dataType := image |}
            else
              Js.throw (Js.Error "Data reader did not produce a valid dataset")
        end
  end.

End Handler.

End ImportSingleFile.

(** ** The view-config store *)

Module ViewConfigStore.

(** The key a value becomes when it indexes an object: a string is itself,
    [undefined] is the key ["undefined"]. *)
Definition propertyKey (v : option string) : string := default "undefined" v.

(** [src/store/view-configs/slicing] and [src/store/view-configs/windowing]:
    the two stores, working on a state of their own. *)
Class SubStoresModule (ViewConfig StateFile S : Type) : Type := {
  viewSliceStore_removeView : string → Js.Eff S unit;
  windowingStore_removeView : string → Js.Eff S unit;
  viewSliceStore_removeData : string → option string → Js.Eff S unit;
  windowingStore_removeData : string → option string → Js.Eff S unit;
  viewSliceStore_serialize : StateFile → Js.Eff S unit;
  windowingStore_serialize : StateFile → Js.Eff S unit;
  viewSliceStore_deserialize : string → gmap string ViewConfig → Js.Eff S unit;
  windowingStore_deserialize : string → gmap string ViewConfig → Js.Eff S unit;
}.

Section Store.
Context {ViewConfig StateFile S : Type}.
Context `{!SubStoresModule ViewConfig StateFile S}.

Definition removeView (viewID : string) : Js.Eff S unit :=
  viewSliceStore_removeView viewID;;
  windowingStore_removeView viewID.

Definition removeData (dataID : string) (viewID : option string) : Js.Eff S unit :=
  viewSliceStore_removeData dataID viewID;;
  windowingStore_removeData dataID viewID.

Definition serialize (stateFile : StateFile) : Js.Eff S unit :=
  viewSliceStore_serialize stateFile;;
  windowingStore_serialize stateFile.

(** The object [deserialize] builds: starting empty, for each entry of
    [config], in the order of [Object.entries], the view config is stored
    under the new id that [dataIDMap] has for the entry's data id. [config]
    is given by its entries; [dataIDMap] and the object built are maps from
    keys to values. *)
Definition updatedConfig (config : list (string * ViewConfig))
  (dataIDMap : gmap string string) : gmap string ViewConfig :=
  foldl (λ updated entry,
           let '(dataID, viewConfig) := entry in
           let newDataID := dataIDMap !! dataID in
           <[propertyKey newDataID := viewConfig]> updated)
    ∅ config.

Definition deserialize (viewID : string) (config : list (string * ViewConfig))
  (dataIDMap : gmap string string) : Js.Eff S unit :=
  let updated := updatedConfig config dataIDMap in
  viewSliceStore_deserialize viewID updated;;
  windowingStore_deserialize viewID updated.

End Store.

End ViewConfigStore.

(** ** Reading the record of calls of a run *)

(** The causes [logError] was called with, among the calls of a run. *)
Definition logErrorCalls {DataSelection : Type}
  (trace : list (LoadUserFiles.Call DataSelection)) : list Js.JsError :=
  omap (λ c, match c with LoadUserFiles.CallLogError e => Some e | _ => None end)
    trace.

(** The cause of the first error of an errored result. *)
Definition firstErrorCause (errResult : PipelineResult) : option Js.JsError :=
  cause <$> head (errors errResult).

(** ** Concrete data for the examples *)

Module Examples.
Import LoadUserFiles.

(** An instance of [src/io/import/dataSource] for the examples: the display
    name of a data source is the name of its file, and a file becomes a data
    source with that file as its source. *)
#[local] Instance exampleDataSourceModule : DataSourceModule := {|
  getDataSourceName := λ dataSource,
    match dataSource with
    | Some {| fileSrc := Some src |} => Js.Just (file_name (file src))
    | _ => Js.Null
    end;
  fileToDataSource := λ f,
    {| fileSrc := Some {| file := f; fileType := "" |};
       archiveSrc := None; parent := None |};
|}.

Definition fileDataSource (name : string) : DataSource :=
  fileToDataSource {| file_name := name; file_bytes := [] |}.

Definition result (id name : string) (kind : DataType) : ImportResult :=
  {| dataID := id; dataSource := fileDataSource name; dataType := kind |}.

(** Four DICOM series: CT with 10 slices, MR with 20, DX with 40, US with 1. *)
Definition exampleDicomStore : DicomStore :=
  {| volumeInfo :=
       <["ct" := {| Modality := "CT"; NumberOfSlices := Some 10 |}]>
       (<["mr" := {| Modality := "MR"; NumberOfSlices := Some 20 |}]>
       (<["dx" := {| Modality := "DX"; NumberOfSlices := Some 40 |}]>
       (<["us" := {| Modality := "US"; NumberOfSlices := Some 1 |}]> ∅))) |}.

Definition ctResult : ImportResult := result "ct" "ct.zip" dicom.
Definition mrResult : ImportResult := result "mr" "mr.zip" dicom.
Definition dxResult : ImportResult := result "dx" "dx.zip" dicom.
Definition usResult : ImportResult := result "us" "us.zip" dicom.

Definition brainImage : ImportResult := result "1" "brain.nii" image.
Definition brainSegImage : ImportResult := result "2" "brain.seg.nii" image.
(** An image read from a file whose name is empty. *)
Definition unnamedImage : ImportResult := result "3" "" image.

(** An instance of [src/utils/path] and of [jszip] for the examples, and an
    archive with a directory, two nested files and a root-level file. *)
#[local] Instance examplePathModule : PathModule := {|
  basename := Zip.spec_basename;
  dirname := Zip.spec_dirname;
|}.

Definition exampleArchive : Zip.JSZip :=
  {| Zip.files :=
       [ {| Zip.name := "scans/"; Zip.dir := true;
            Zip.async_blob := Js.Return [] |};
         {| Zip.name := "scans/brain.nii"; Zip.dir := false;
            Zip.async_blob := Js.Return [Byte.x01] |};
         {| Zip.name := "scans/series/0001.dcm"; Zip.dir := false;
            Zip.async_blob := Js.Return [Byte.x02; Byte.x03] |};
         {| Zip.name := "notes.txt"; Zip.dir := false;
            Zip.async_blob := Js.Return [] |} ] |}.

Definition exampleZipFile : File :=
  {| file_name := "scans.zip"; file_bytes := [Byte.x50; Byte.x4b] |}.

#[local] Instance exampleJSZipModule : Zip.JSZipModule := {|
  Zip.loadAsync := λ f,
    if String.eqb (file_name f) "scans.zip" then Js.Return exampleArchive
    else Js.Throw (Js.Error "Can't find end of central directory");
|}.

(** Instances for the single-file handler: a decoded object is its class
    hierarchy, the image store lists the ids it gave, the file store the
    sources per id. Files of type [nii] decode to an image, files of type
    [vtp] to a mesh; no other type has a reader. *)
#[local] Instance exampleReadersModule : ImportSingleFile.ReadersModule (list string) := {|
  ImportSingleFile.FILE_READERS :=
    <["nii" := λ _ : File, Js.Return ["vtkObject"; "vtkDataSet"; "vtkImageData"]]>
    (<["vtp" := λ _ : File, Js.Return ["vtkObject"; "vtkDataSet"; "vtkPolyData"]]> ∅);
  ImportSingleFile.isA := Js.includes;
|}.

#[local] Instance exampleImageStoreModule
  : ImportSingleFile.ImageStoreModule (list string) (list string) := {|
  ImportSingleFile.addVTKImageData := λ name _ store,
    ("image:" +:+ name, store ++ ["image:" +:+ name]);
|}.

#[local] Instance exampleFileStoreModule
  : ImportSingleFile.FileStoreModule (list (string * list DataSource)) := {|
  ImportSingleFile.fileStore_add := λ dataID sources store,
    store ++ [(dataID, sources)];
|}.

Definition typedDataSource (name type : string) : DataSource :=
  {| fileSrc := Some {| file := {| file_name := name; file_bytes := [] |};
                        fileType := type |};
     archiveSrc := None; parent := None |}.

Definition emptyHandlerState
  : ImportSingleFile.HandlerState (list string) (list (string * list DataSource)) :=
  {| ImportSingleFile.imageStore := [];
     ImportSingleFile.fileStore := [];
     ImportSingleFile.doneCalls := [] |}.

(** Instances for the batch driver: a selection is a data id; a source named
    [bad.nii] fails to import with the message [boom], a source named
    [broken.nii] gives a failure without error records, an import of more
    than three sources throws, and any other source imports as one image. *)
#[local] Instance exampleImportCommonModule : ImportCommonModule := {|
  isLoadableResult := λ r,
    match dataType r with image | dicom => true | model => false end;
  isVolumeResult := λ r,
    match r with
    | Some r => match dataType r with image | dicom => true | model => false end
    | None => false
    end;
|}.

Definition exampleImport (source : DataSource) : PipelineResult :=
  match getDataSourceName (Some source) with
  | Js.Just name =>
      if String.eqb name "bad.nii"
      then PipelineResultError
             [ {| error_message := "boom"; cause := Js.Error "boom";
                  inputDataStackTrace := [source] |} ]
      else if String.eqb name "broken.nii" then PipelineResultError []
      else PipelineResultSuccess
             [ {| dataID := name; dataSource := source; dataType := image |} ]
  | _ => PipelineResultError
           [ {| error_message := "no file"; cause := Js.Error "no file";
                inputDataStackTrace := [source] |} ]
  end.

#[local] Instance exampleImportDataSourcesModule : ImportDataSourcesModule string := {|
  importDataSources := λ sources,
    if bool_decide (3 < length sources)%nat
    then Js.throw (Js.Error "too many files")
    else mret (exampleImport <$> sources);
  toDataSelection := λ r, default "" (dataID <$> r);
|}.

Definition exampleWorld (selection : option string) : World string :=
  {| stores := {| dicomStore := exampleDicomStore;
                  dataStore := {| primarySelection := selection |};
                  loadDataStore := {| segmentGroupExtension := "seg" |} |};
     calls := [] |}.

End Examples.

(** ** More data for the examples *)

Module MoreExamples.
Import LoadUserFiles.

(** Two CT series with 12 slices each. *)
Definition tieDicomStore : DicomStore :=
  {| volumeInfo :=
       <["first" := {| Modality := "CT"; NumberOfSlices := Some 12 |}]>
       (<["second" := {| Modality := "CT"; NumberOfSlices := Some 12 |}]> ∅) |}.

Definition firstCT : ImportResult := Examples.result "first" "a.zip" dicom.
Definition secondCT : ImportResult := Examples.result "second" "b.zip" dicom.

(** A DICOM result the store has no volume for. *)
Definition unknownDicom : ImportResult := Examples.result "nowhere" "c.zip" dicom.

(** An archive whose second file cannot be read. *)
Definition corruptArchive : Zip.JSZip :=
  {| Zip.files :=
       [ {| Zip.name := "scans/"; Zip.dir := true;
            Zip.async_blob := Js.Throw (Js.Error "not a file") |};
         {| Zip.name := "scans/brain.nii"; Zip.dir := false;
            Zip.async_blob := Js.Return [Byte.x01] |};
         {| Zip.name := "scans/broken.nii"; Zip.dir := false;
            Zip.async_blob := Js.Throw (Js.Error "invalid stored block lengths") |};
         {| Zip.name := "notes.txt"; Zip.dir := false;
            Zip.async_blob := Js.Return [] |} ] |}.

#[local] Instance corruptJSZipModule : Zip.JSZipModule := {|
  Zip.loadAsync := λ _, Js.Return corruptArchive;
|}.




End MoreExamples.

(* ===================================================================== *)
(** * Part II: the theorems *)
(* ===================================================================== *)

(** ** The JavaScript fragments *)

Section SortFacts.
Context {A : Type} (comparefn : A → A → Js.number).

Lemma sort_insert_permutation (x : A) (l : list A) :
  Js.sort_insert comparefn x l ≡ₚ x :: l.
Proof.
  induction l as [|y l IH]; simpl; [done|].
  destruct (0 <? _); [|done].
  rewrite IH. apply Permutation_swap.
Qed.

(** The sort rearranges the array and nothing else. *)
Lemma sort_permutation (l : list A) : Js.sort comparefn l ≡ₚ l.
Proof.
  induction l as [|x l IH]; simpl; [done|].
  by rewrite sort_insert_permutation, IH.
Qed.

(** For a comparator that never puts two elements each strictly after the
    other, the result is in order: no element is strictly after its
    successor. *)
Lemma sort_sorted (l : list A) :
  (∀ x y, 0 < Js.SortCompare comparefn x y → Js.SortCompare comparefn y x <= 0) →
  Sorted (λ a b, Js.SortCompare comparefn a b <= 0) (Js.sort comparefn l).
Proof.
  intros Hasym.
  assert (∀ x l, Sorted (λ a b, Js.SortCompare comparefn a b <= 0) l →
                 Sorted (λ a b, Js.SortCompare comparefn a b <= 0)
                   (Js.sort_insert comparefn x l)) as Hinsert.
  { clear l. intros x l. induction 1 as [|y l Hl IH Hy]; simpl.
    - by repeat constructor.
    - destruct (Z.ltb_spec 0 (Js.SortCompare comparefn x y)) as [Hlt|Hle].
      + constructor; [done|].
        destruct Hy as [|z l Hyz]; simpl.
        * constructor. by apply Hasym.
        * destruct (0 <? _); constructor; [done | by apply Hasym].
      + by repeat constructor. }
  induction l as [|x l IH]; simpl; [constructor | by apply Hinsert].
Qed.

(** The sort is stable: an element stays in front of the later elements it
    is not strictly after. *)
Lemma sort_insert_head (x : A) (l : list A) :
  Forall (λ y, Js.SortCompare comparefn x y <= 0) l →
  Js.sort_insert comparefn x l = x :: l.
Proof.
  intros [|y l' Hy _]; simpl; [done|].
  by destruct (Z.ltb_spec 0 (Js.SortCompare comparefn x y)); [lia|].
Qed.

End SortFacts.

(** ** Result partitioning *)

Section PartitionFacts.
Import Pipeline.

Lemma partitionResults_cons (r : PipelineResult) (results : list PipelineResult) :
  partitionResults (r :: results) =
  if ok r
  then (r :: (partitionResults results).1, (partitionResults results).2)
  else ((partitionResults results).1, r :: (partitionResults results).2).
Proof.
  unfold partitionResults; simpl.
  rewrite !filter_cons.
  destruct (ok r); repeat case_decide; try done.
Qed.

(** C2. Partitioning [N] results gives two lists whose lengths sum to [N];
    together they hold exactly the inputs, each once (a permutation of the
    input); the first holds successes only and the second failures only, so no
    result is in both; and each list keeps the order of the input (it is a
    sublist of it). *)
Theorem partitionResults_total (results : list PipelineResult) :
  let '(succeeded, errored) := partitionResults results in
  (length succeeded + length errored = length results)%nat
  ∧ succeeded ++ errored ≡ₚ results
  ∧ Forall (λ r, ok r = true) succeeded
  ∧ Forall (λ r, ok r = false) errored
  ∧ succeeded `sublist_of` results
  ∧ errored `sublist_of` results.
Proof.
  induction results as [|r results IH].
  - simpl. repeat split; constructor.
  - rewrite partitionResults_cons.
    destruct (partitionResults results) as [succeeded errored]; simpl in *.
    destruct IH as (Hlen & Hperm & Hok & Herr & Hsub1 & Hsub2).
    destruct (ok r) eqn:Hr; simpl.
    + repeat split; [lia | by constructor | by constructor | done
                    | by constructor | by constructor].
    + repeat split; [simpl; lia | | done | by constructor
                    | by constructor | by constructor].
      rewrite <- Permutation_middle. by constructor.
Qed.

End PartitionFacts.

(** ** The primary-selection heuristic *)

Section HeuristicFacts.
Import LoadUserFiles.

(** An own key of the table is a property of it. *)
Lemma own_property_has_property {V} (key : string) (obj : list (string * V)) (v : V) :
  Js.own_property key obj = Some v → Js.has_property key obj = true.
Proof. unfold Js.has_property. by intros ->. Qed.

(** The priorities of the table. *)
Lemma BASE_MODALITY_TYPES_priority (modality : string) (p : Z) :
  Js.own_property modality BASE_MODALITY_TYPES = Some p →
  (modality = "CT" ∧ p = 3) ∨ (modality = "MR" ∧ p = 3)
  ∨ (modality = "US" ∧ p = 2) ∨ (modality = "DX" ∧ p = 1).
Proof.
  unfold Js.own_property, BASE_MODALITY_TYPES; simpl.
  repeat match goal with
         | |- context [String.eqb modality ?k] =>
             destruct (String.eqb_spec modality k) as [->|_]; simpl;
             [intros [= <-]; auto 10|]
         end.
  done.
Qed.

(** [undefined], as a key, is no property of the table: a volume without a
    modality is no candidate. *)
Lemma undefined_no_base_modality :
  Js.has_property "undefined" BASE_MODALITY_TYPES = false.
Proof. reflexivity. Qed.

Lemma toBaseDicomVolume_listed (dicomStore : DicomStore) (r : ImportResult)
  (info : VolumeInfo) (p : Z) :
  volumeInfo dicomStore !! dataID r = Some info →
  Js.own_property (Modality info) BASE_MODALITY_TYPES = Some p →
  toBaseDicomVolume dicomStore r = Some (candidateOf r info).
Proof.
  intros Hinfo Hp. unfold toBaseDicomVolume. rewrite Hinfo. simpl.
  by rewrite (own_property_has_property _ _ _ Hp).
Qed.

(** Two DICOM results with listed modalities: the second is chosen exactly
    when the comparator puts the first strictly after it. *)
Lemma findBaseDicom_pair (dicomStore : DicomStore) (x y : ImportResult)
  (infoX infoY : VolumeInfo) (px py : Z) :
  dataType x = dicom → dataType y = dicom →
  volumeInfo dicomStore !! dataID x = Some infoX →
  volumeInfo dicomStore !! dataID y = Some infoY →
  Js.own_property (Modality infoX) BASE_MODALITY_TYPES = Some px →
  Js.own_property (Modality infoY) BASE_MODALITY_TYPES = Some py →
  findBaseDicom dicomStore [x; y] =
  if 0 <? Js.SortCompare compareBaseDicomVolumes
            (candidateOf x infoX) (candidateOf y infoY)
  then Some y else Some x.
Proof.
  intros Hx Hy HinfoX HinfoY Hpx Hpy. unfold findBaseDicom.
  rewrite filter_cons_True by done. rewrite filter_cons_True by done.
  rewrite filter_nil. simpl.
  rewrite (toBaseDicomVolume_listed _ _ _ _ HinfoX Hpx).
  rewrite (toBaseDicomVolume_listed _ _ _ _ HinfoY Hpy). simpl.
  by destruct (0 <? _).
Qed.

(** The comparator on candidates of different priority: the difference of
    the priorities, whatever the slice counts. *)
Lemma compare_priorities (va vb : BaseDicomVolume) (a b : Z) :
  priority va = Some a → priority vb = Some b → a ≠ b →
  Js.SortCompare compareBaseDicomVolumes va vb = a - b.
Proof.
  intros Ha Hb Hab. unfold Js.SortCompare, compareBaseDicomVolumes.
  rewrite Ha, Hb. simpl.
  destruct (Z.eqb_spec (a - b) 0); [lia|done].
Qed.

(** The comparator on candidates of equal priority: by slice count. *)
Lemma compare_slices (va vb : BaseDicomVolume) (p : Z) :
  priority va = Some p → priority vb = Some p →
  Js.SortCompare compareBaseDicomVolumes va vb =
  match NumberOfSlices (baseVolumeInfo va), NumberOfSlices (baseVolumeInfo vb) with
  | Some na, Some nb =>
      if na =? 0 then 1 else if nb =? 0 then -1 else nb - na
  | Some na, None => if na =? 0 then 1 else -1
  | None, _ => 1
  end.
Proof.
  intros Ha Hb. unfold Js.SortCompare, compareBaseDicomVolumes.
  rewrite Ha, Hb. simpl. rewrite Z.sub_diag. simpl.
  destruct (NumberOfSlices (baseVolumeInfo va)) as [na|],
    (NumberOfSlices (baseVolumeInfo vb)) as [nb|]; simpl; try done.
  - by destruct (Z.eqb_spec na 0), (Z.eqb_spec nb 0).
  - by destruct (Z.eqb_spec na 0).
Qed.

(** C1 (what the code does). Of two DICOM results with listed modalities of
    different priority, [findBaseDicom] returns the one of LOWER priority, in
    either input order and whatever the slice counts: the comparator sorts by
    ascending priority and the first element is taken. *)
Theorem findBaseDicom_returns_lower_priority (dicomStore : DicomStore)
  (x y : ImportResult) (infoX infoY : VolumeInfo) (px py : Z) :
  dataType x = dicom → dataType y = dicom →
  volumeInfo dicomStore !! dataID x = Some infoX →
  volumeInfo dicomStore !! dataID y = Some infoY →
  Js.own_property (Modality infoX) BASE_MODALITY_TYPES = Some px →
  Js.own_property (Modality infoY) BASE_MODALITY_TYPES = Some py →
  px < py →
  findBaseDicom dicomStore [x; y] = Some x
  ∧ findBaseDicom dicomStore [y; x] = Some x.
Proof.
  intros Hx Hy HinfoX HinfoY Hpx Hpy Hlt. split.
  - rewrite (findBaseDicom_pair _ _ _ _ _ _ _ Hx Hy HinfoX HinfoY Hpx Hpy).
    rewrite (compare_priorities _ _ px py) by (done || lia).
    destruct (Z.ltb_spec 0 (px - py)); [lia|done].
  - rewrite (findBaseDicom_pair _ _ _ _ _ _ _ Hy Hx HinfoY HinfoX Hpy Hpx).
    rewrite (compare_priorities _ _ py px) by (done || lia).
    destruct (Z.ltb_spec 0 (py - px)); [done|lia].
Qed.

(** *** Lists of any length: the lowest priority wins *)

(** The comparator orders two candidates with priorities by ascending
    priority. *)
Lemma compare_after_priority (va vb : BaseDicomVolume) (a b : Z) :
  priority va = Some a → priority vb = Some b →
  0 < Js.SortCompare compareBaseDicomVolumes va vb → b <= a.
Proof.
  intros Ha Hb. destruct (decide (a = b)) as [->|Hne]; [lia|].
  rewrite (compare_priorities va vb a b) by done. lia.
Qed.

Lemma compare_before_priority (va vb : BaseDicomVolume) (a b : Z) :
  priority va = Some a → priority vb = Some b →
  ¬ 0 < Js.SortCompare compareBaseDicomVolumes va vb → a <= b.
Proof.
  intros Ha Hb. destruct (decide (a = b)) as [->|Hne]; [lia|].
  rewrite (compare_priorities va vb a b) by done. lia.
Qed.

(** The first element of the sorted candidates has the lowest priority. *)
Lemma sort_head_lowest_priority (candidates : list BaseDicomVolume)
  (first : BaseDicomVolume) (rest : list BaseDicomVolume) :
  Forall (λ v, is_Some (priority v)) candidates →
  Js.sort compareBaseDicomVolumes candidates = first :: rest →
  ∃ p, priority first = Some p
       ∧ ∀ v q, v ∈ candidates → priority v = Some q → p <= q.
Proof.
  intros Hall. revert first rest.
  induction Hall as [|x candidates [px Hpx] _ IH]; intros first rest; [done|].
  simpl. destruct (Js.sort compareBaseDicomVolumes candidates)
    as [|first' rest'] eqn:Hsorted.
  - intros [= <- <-]. exists px. split; [done|].
    assert (candidates = []) as ->.
    { apply Permutation_nil_r. rewrite <- Hsorted. symmetry.
      apply sort_permutation. }
    intros v q ->%list_elem_of_singleton. rewrite Hpx. intros [= <-]. lia.
  - destruct (IH first' rest' eq_refl) as (p' & Hp' & Hmin). simpl.
    destruct (Z.ltb_spec 0 (Js.SortCompare compareBaseDicomVolumes x first'))
      as [Hlt|Hle].
    + intros [= <- <-]. exists p'. split; [done|].
      intros v q [->|Hv]%elem_of_cons Hq; [|by eapply Hmin].
      rewrite Hpx in Hq. injection Hq as <-.
      by eapply compare_after_priority.
    + intros [= <- <-]. exists px. split; [done|].
      assert (px <= p') as Hle'
        by (eapply compare_before_priority; [done..|lia]).
      intros v q [->|Hv]%elem_of_cons Hq.
      * rewrite Hpx in Hq. injection Hq as <-. lia.
      * specialize (Hmin v q Hv Hq). lia.
Qed.

(** Whatever the list: when the modalities of the DICOM results are listed
    ones or no properties of the table at all, the result [findBaseDicom]
    returns has the LOWEST priority of all the DICOM results with a listed
    modality. *)
Lemma findBaseDicom_lowest_priority (dicomStore : DicomStore)
  (l : list ImportResult) (r : ImportResult) :
  (∀ x info, x ∈ l → volumeInfo dicomStore !! dataID x = Some info →
             Js.has_property (Modality info) BASE_MODALITY_TYPES = true →
             is_Some (Js.own_property (Modality info) BASE_MODALITY_TYPES)) →
  findBaseDicom dicomStore l = Some r →
  ∃ info p,
    r ∈ l ∧ dataType r = dicom
    ∧ volumeInfo dicomStore !! dataID r = Some info
    ∧ Js.own_property (Modality info) BASE_MODALITY_TYPES = Some p
    ∧ ∀ x infoX q,
        x ∈ l → dataType x = dicom →
        volumeInfo dicomStore !! dataID x = Some infoX →
        Js.own_property (Modality infoX) BASE_MODALITY_TYPES = Some q →
        p <= q.
Proof.
  intros Hlisted. unfold findBaseDicom.
  set (dicoms := filter (λ x, dataType x = dicom) l).
  set (candidates := omap (toBaseDicomVolume dicomStore) dicoms).
  assert (∀ v, v ∈ candidates →
               ∃ x info, x ∈ l ∧ dataType x = dicom
                         ∧ volumeInfo dicomStore !! dataID x = Some info
                         ∧ v = candidateOf x info
                         ∧ is_Some (priority v)) as Hcand.
  { intros v (x & [Hx Hin]%list_elem_of_filter & Hv)%list_elem_of_omap.
    unfold toBaseDicomVolume in Hv.
    destruct (volumeInfo dicomStore !! dataID x) as [info|] eqn:Hinfo; [|done].
    simpl in Hv.
    destruct (Js.has_property (Modality info) BASE_MODALITY_TYPES) eqn:Hin';
      [|done].
    injection Hv as <-. exists x, info. repeat split; try done.
    by apply (Hlisted x info). }
  destruct (Js.sort compareBaseDicomVolumes candidates) as [|first rest]
    eqn:Hsorted; [done|].
  intros [= <-].
  destruct (sort_head_lowest_priority candidates first rest) as (p & Hp & Hmin);
    [by apply Forall_forall; intros v (? & ? & ? & ? & ? & ? & ?)%Hcand | done |].
  assert (first ∈ candidates) as Hfirst.
  { rewrite <- (sort_permutation compareBaseDicomVolumes candidates), Hsorted.
    by left. }
  destruct (Hcand first Hfirst) as (x & info & Hx & Hdicom & Hinfo & -> & _).
  exists info, p. repeat split; try done.
  intros y infoY q Hy HdicomY HinfoY Hq.
  apply (Hmin (candidateOf y infoY) q); [|done].
  apply list_elem_of_omap. exists y. split.
  - by apply list_elem_of_filter.
  - by apply (toBaseDicomVolume_listed _ _ _ q).
Qed.

(** C4. Of two DICOM results with listed modalities of equal priority, where
    one has a slice count and the other has none or a smaller one,
    [findBaseDicom] returns the one with the larger slice count, in either
    input order. (A slice count of 0 counts as none, as in the code.) *)
Theorem findBaseDicom_prefers_more_slices (dicomStore : DicomStore)
  (x y : ImportResult) (infoX infoY : VolumeInfo) (p nx : Z) :
  dataType x = dicom → dataType y = dicom →
  volumeInfo dicomStore !! dataID x = Some infoX →
  volumeInfo dicomStore !! dataID y = Some infoY →
  Js.own_property (Modality infoX) BASE_MODALITY_TYPES = Some p →
  Js.own_property (Modality infoY) BASE_MODALITY_TYPES = Some p →
  NumberOfSlices infoX = Some nx → nx ≠ 0 →
  (Js.truthy_number (NumberOfSlices infoY) = false
   ∨ ∃ ny, NumberOfSlices infoY = Some ny ∧ ny < nx) →
  findBaseDicom dicomStore [x; y] = Some x
  ∧ findBaseDicom dicomStore [y; x] = Some x.
Proof.
  intros Hx Hy HinfoX HinfoY Hpx Hpy Hnx Hnx0 Hny. split.
  - rewrite (findBaseDicom_pair _ _ _ _ _ _ _ Hx Hy HinfoX HinfoY Hpx Hpy).
    rewrite (compare_slices _ _ p) by done. simpl. rewrite Hnx.
    destruct (Z.eqb_spec nx 0); [done|].
    destruct (NumberOfSlices infoY) as [ny|]; [|done].
    destruct (Z.eqb_spec ny 0); [done|].
    destruct Hny as [Hny|(ny' & [= <-] & Hlt)].
    + simpl in Hny. destruct (Z.eqb_spec ny 0); done.
    + destruct (Z.ltb_spec 0 (ny - nx)); [lia|done].
  - rewrite (findBaseDicom_pair _ _ _ _ _ _ _ Hy Hx HinfoY HinfoX Hpy Hpx).
    rewrite (compare_slices _ _ p) by done. simpl. rewrite Hnx.
    destruct (NumberOfSlices infoY) as [ny|]; [|done].
    destruct (Z.eqb_spec ny 0); [done|].
    destruct (Z.eqb_spec nx 0); [done|].
    destruct Hny as [Hny|(ny' & [= <-] & Hlt)].
    + simpl in Hny. destruct (Z.eqb_spec ny 0); done.
    + destruct (Z.ltb_spec 0 (nx - ny)); [done|lia].
Qed.

(** C1, at the spec's example: DX (priority 1, 40 slices) against US
    (priority 2, 1 slice). The spec has US win; the code returns DX. *)
Lemma findBaseDicom_DX_US_returns_DX :
  findBaseDicom Examples.exampleDicomStore [Examples.dxResult; Examples.usResult]
    = Some Examples.dxResult
  ∧ findBaseDicom Examples.exampleDicomStore [Examples.usResult; Examples.dxResult]
    = Some Examples.dxResult.
Proof.
  apply (findBaseDicom_returns_lower_priority Examples.exampleDicomStore
           Examples.dxResult Examples.usResult
           {| Modality := "DX"; NumberOfSlices := Some 40 |}
           {| Modality := "US"; NumberOfSlices := Some 1 |} 1 2);
    [reflexivity | reflexivity | reflexivity | reflexivity
    | reflexivity | reflexivity | lia].
Defined.

(** C4, at the spec's example: CT with 10 slices against MR with 20, both of
    priority 3. MR is chosen, in either input order. *)
Lemma findBaseDicom_CT10_MR20_returns_MR :
  findBaseDicom Examples.exampleDicomStore [Examples.mrResult; Examples.ctResult]
    = Some Examples.mrResult
  ∧ findBaseDicom Examples.exampleDicomStore [Examples.ctResult; Examples.mrResult]
    = Some Examples.mrResult.
Proof.
  apply (findBaseDicom_prefers_more_slices Examples.exampleDicomStore
           Examples.mrResult Examples.ctResult
           {| Modality := "MR"; NumberOfSlices := Some 20 |}
           {| Modality := "CT"; NumberOfSlices := Some 10 |} 3 20);
    [reflexivity | reflexivity | reflexivity | reflexivity
    | reflexivity | reflexivity | reflexivity | lia
    | right; exists 10; split; [reflexivity | lia]].
Defined.

(** *** Splitting a name at its dots *)

(** There is always a first piece. *)
Lemma split_nonempty (sep : ascii) (s : string) : Js.split sep s ≠ [].
Proof.
  destruct s as [|c s]; simpl; [done|].
  destruct (Ascii.eqb c sep); [done|].
  by destruct (Js.split sep s).
Qed.

(** Joining the pieces with the separator gives the string back. *)
Lemma split_join (sep : ascii) (s : string) :
  Js.join (String sep EmptyString) (Js.split sep s) = s.
Proof.
  induction s as [|c s IH]; [done|]. simpl.
  pose proof (split_nonempty sep s) as Hne.
  destruct (Js.split sep s) as [|piece pieces]; [done|].
  destruct (Ascii.eqb_spec c sep) as [->|Hc].
  - unfold Js.join in *. simpl in *. by rewrite IH.
  - unfold Js.join in *. simpl in *. rewrite <- IH. by destruct pieces.
Qed.

(** No piece holds the separator. *)
Lemma split_pieces (sep : ascii) (s piece : string) :
  piece ∈ Js.split sep s → ¬ In sep (list_ascii_of_string piece).
Proof.
  revert piece. induction s as [|c s IH]; intros piece; simpl.
  - intros ->%list_elem_of_singleton. simpl. tauto.
  - destruct (Ascii.eqb_spec c sep) as [->|Hc].
    + intros [->|Hin]%elem_of_cons; [simpl; tauto | by apply IH].
    + destruct (Js.split sep s) as [|first pieces].
      * intros ->%list_elem_of_singleton. simpl. intros [?|[]]. done.
      * intros [->|Hin]%elem_of_cons.
        -- simpl. intros [?|Hin]; [done|].
           apply (IH first); [left|done].
        -- apply IH. by right.
Qed.

Lemma includes_elem_of (l : list string) (x : string) :
  Js.includes l x = true ↔ x ∈ l.
Proof.
  unfold Js.includes. rewrite existsb_exists. split.
  - intros (y & Hin & ->%String.eqb_eq). by apply list_elem_of_In.
  - intros Hin. exists x. split; [by apply list_elem_of_In | apply String.eqb_refl].
Qed.

(** [isSegmentation] decides [segmentationName]. *)
Lemma isSegmentation_spec (extension name : string) :
  isSegmentation extension name = true ↔ segmentationName extension name.
Proof.
  unfold isSegmentation, segmentationName, Js.slice1.
  destruct (String.eqb_spec extension "") as [->|Hne].
  - split; [done | by intros [? _]].
  - rewrite includes_elem_of. tauto.
Qed.

(** *** The image fallback *)

(** The first element of a filtered list is the first element of the list
    that passes the filter. *)
Lemma head_filter_Some {A} (P : A → Prop) `{!∀ x, Decision (P x)}
  (l : list A) (x : A) :
  head (filter P l) = Some x ↔
  ∃ i, l !! i = Some x ∧ P x ∧ ∀ j y, (j < i)%nat → l !! j = Some y → ¬ P y.
Proof.
  induction l as [|a l IH]; simpl.
  - split; [done | by intros (i & ? & _)].
  - rewrite filter_cons. destruct (decide (P a)) as [Ha|Ha]; simpl.
    + split.
      * intros [= ->]. exists 0%nat. repeat split; [done|]. intros; lia.
      * intros ([|i] & Hi & Hx & Hfirst); simpl in Hi; [congruence|].
        exfalso. by apply (Hfirst 0%nat a); [lia|..].
    + rewrite IH. split.
      * intros (i & Hi & Hx & Hfirst). exists (S i). repeat split; [done..|].
        intros [|j] y Hj Hy; simpl in Hy; [congruence|].
        apply (Hfirst j); [lia|done].
      * intros ([|i] & Hi & Hx & Hfirst); simpl in Hi; [congruence|].
        exists i. repeat split; [done..|].
        intros j y Hj Hy. apply (Hfirst (S j)); [lia|done].
Qed.

Lemma head_filter_None {A} (P : A → Prop) `{!∀ x, Decision (P x)} (l : list A) :
  head (filter P l) = None ↔ ∀ x, x ∈ l → ¬ P x.
Proof.
  rewrite head_None. split.
  - intros Hnil x Hin HP.
    assert (x ∈ filter P l) as Hx by by apply list_elem_of_filter.
    rewrite Hnil in Hx. by apply not_elem_of_nil in Hx.
  - intros Hall. destruct (filter P l) as [|x rest] eqn:Hf; [done|].
    assert (x ∈ filter P l) as [HP Hin]%list_elem_of_filter
      by (rewrite Hf; left).
    by destruct (Hall x).
Qed.

Section ImageFallback.
Context `{DataSourceModule}.

Lemma hasBaseImageName_spec (extension : string) (r : ImportResult) :
  dataType r = image ∧ hasBaseImageName extension r = true
  ↔ baseImageCandidate extension r.
Proof.
  unfold hasBaseImageName, baseImageCandidate.
  destruct (getDataSourceName (Some (dataSource r))) as [| |name].
  - split; [by intros [_ ?] | by intros [_ (? & ? & _)]].
  - split; [by intros [_ ?] | by intros [_ (? & ? & _)]].
  - destruct (String.eqb_spec name "") as [->|Hname].
    + split; [by intros [_ ?] | by intros [_ (? & [= <-] & ? & _)]].
    + rewrite negb_true_iff, <- not_true_iff_false, isSegmentation_spec.
      split.
      * intros [? ?]. split; [done|]. by exists name.
      * intros [? (? & [= <-] & _ & ?)]. done.
Qed.

Lemma findBaseImage_head (l : list ImportResult) (extension : string) :
  findBaseImage l extension =
  head (filter (λ r, hasBaseImageName extension r = true ∧ dataType r = image) l).
Proof.
  unfold findBaseImage. rewrite list_filter_filter.
  by destruct (filter _ l).
Qed.

End ImageFallback.

Section SelectionFallback.
Context `{DataSourceModule} `{ImportCommonModule}.

(** C5 (amended). A name is a segmentation name exactly when the extension is
    not empty and is one of the dot-separated tokens after the first; the
    empty extension makes no name a segmentation name. [findBaseImage] returns
    the first result, in original order, of kind image that has a display
    name, not empty, which is no segmentation name, and nothing when there is
    none. When no DICOM candidate qualifies, [findBaseDataSource] returns what
    [findBaseImage] found. *)
Theorem findBaseImage_first_candidate (extension : string) :
  (∀ name, isSegmentation extension name = true ↔ segmentationName extension name)
  ∧ (∀ name, isSegmentation "" name = false)
  ∧ (∀ l r,
       findBaseImage l extension = Some r ↔
       ∃ i, l !! i = Some r ∧ baseImageCandidate extension r
            ∧ ∀ j r', (j < i)%nat → l !! j = Some r' →
                      ¬ baseImageCandidate extension r')
  ∧ (∀ l,
       findBaseImage l extension = None ↔
       ∀ r, r ∈ l → ¬ baseImageCandidate extension r)
  ∧ (∀ dicomStore succeeded r,
       findBaseDicom dicomStore (filterLoadableDataSources succeeded) = None →
       findBaseImage (filterLoadableDataSources succeeded) extension = Some r →
       findBaseDataSource dicomStore succeeded extension = Some r).
Proof.
  split; [apply isSegmentation_spec|].
  split; [done|].
  split; [|split].
  - intros l r. rewrite findBaseImage_head, head_filter_Some.
    split; intros (i & Hi & Hr & Hfirst); exists i; (split; [done|]).
    + split; [apply hasBaseImageName_spec; tauto|].
      intros j r' Hj Hr' Hcand%hasBaseImageName_spec.
      apply (Hfirst j r'); tauto.
    + split; [apply hasBaseImageName_spec in Hr; tauto|].
      intros j r' Hj Hr' Hcand. apply (Hfirst j r'); [done..|].
      apply hasBaseImageName_spec. tauto.
  - intros l. rewrite findBaseImage_head, head_filter_None.
    split; intros Hall r Hin.
    + intros Hcand%hasBaseImageName_spec. apply (Hall r Hin). tauto.
    + intros Hcand. apply (Hall r Hin). apply hasBaseImageName_spec. tauto.
  - intros dicomStore succeeded r Hdicom Himage.
    unfold findBaseDataSource. by rewrite Hdicom, Himage.
Qed.

End SelectionFallback.

Section SelectionExamples.
#[local] Existing Instance Examples.exampleDataSourceModule.

(** C5, at the spec's example: of [brain.nii] and [brain.seg.nii] with the
    extension [seg], [brain.nii] is returned, in either input order. *)
Lemma findBaseImage_brain_nii :
  findBaseImage [Examples.brainImage; Examples.brainSegImage] "seg"
    = Some Examples.brainImage
  ∧ findBaseImage [Examples.brainSegImage; Examples.brainImage] "seg"
    = Some Examples.brainImage.
Proof. split; reflexivity. Qed.

(** C5 as the spec words it fails on an image whose display name is empty:
    the empty name is no segmentation name, so the spec's wording has the
    unnamed image win, while [findBaseImage] skips it (the guard
    [if (!name) return false]) and returns the next image. *)
Lemma findBaseImage_skips_unnamed_image :
  isSegmentation "seg" "" = false
  ∧ spec_findBaseImage [Examples.unnamedImage; Examples.brainImage] "seg"
    = Some Examples.unnamedImage
  ∧ findBaseImage [Examples.unnamedImage; Examples.brainImage] "seg"
    = Some Examples.brainImage.
Proof. repeat split; reflexivity. Qed.

End SelectionExamples.

End HeuristicFacts.

(** ** Archive expansion *)

Section ZipFacts.
Import Zip.
Context `{PathModule} `{JSZipModule}.

(** The entries [extractFilesFromZip] keeps. *)
Local Abbreviation fileEntries zip := (filter (λ o : ZipObject, dir o = false) (files zip)).

(** In a list of entries with distinct names, looking an entry up by its
    name finds that entry. *)
Lemma find_by_name (l : list ZipObject) (o : ZipObject) :
  NoDup (name <$> l) → o ∈ l →
  find (λ obj, String.eqb (name obj) (name o)) l = Some o.
Proof.
  induction l as [|a l IH]; simpl.
  - by intros _ ?%not_elem_of_nil.
  - intros [Ha Hl]%NoDup_cons [->|Hin]%elem_of_cons.
    + by rewrite String.eqb_refl.
    + destruct (String.eqb_spec (name a) (name o)) as [Heq|_]; [|by apply IH].
      exfalso. apply Ha. rewrite Heq. by apply list_elem_of_fmap_2.
Qed.

Lemma zip_file_entry (zip : JSZip) (o : ZipObject) :
  wellFormed zip → o ∈ files zip → dir o = false →
  zip_file zip (name o) = Some o.
Proof.
  intros Hwf Hin Hdir. unfold zip_file.
  by rewrite (find_by_name _ _ Hwf Hin), Hdir.
Qed.

(** What the [forEach] loop leaves in [promises] and [paths]. *)
Lemma forEach_arrays (zip : JSZip) (l : list ZipObject)
  (promises : list (Js.Completion File)) (paths : list string) :
  (∀ o, o ∈ l → dir o = false → zip_file zip (name o) = Some o) →
  foldl (forEachCallback zip) (promises, paths) l =
  (promises ++ ((λ o, then_ (async_blob o) (mkFile (basename (name o))))
                  <$> filter (λ o, dir o = false) l),
   paths ++ ((λ o, dirname (name o)) <$> filter (λ o, dir o = false) l)).
Proof.
  revert promises paths. induction l as [|o l IH]; intros promises paths Hl.
  - simpl. by rewrite !app_nil_r.
  - simpl. rewrite filter_cons. destruct (dir o) eqn:Hdir; simpl.
    + apply IH. intros o' Hin. apply Hl. by right.
    + rewrite (Hl o) by (done || left).
      rewrite IH by (intros o' Hin; apply Hl; by right).
      by rewrite <- !app_assoc.
Qed.

(** [Promise.all] of promises that all resolve. *)
Lemma Promise_all_resolved {A B} (promiseOf : A → Js.Completion B)
  (l : list A) (values : list B) :
  Forall2 (λ a v, promiseOf a = Js.Return v) l values →
  Promise_all (promiseOf <$> l) = Js.Return values.
Proof.
  induction 1 as [|a v l values Ha _ IH]; [done|].
  rewrite fmap_cons. cbn [Promise_all]. by rewrite Ha, IH.
Qed.

(** Pairing each file with [paths[index]], the arrays being equally long. *)
Lemma imap_paths (fs : list File) (paths : list string) :
  length paths = length fs →
  imap (λ index f, {| file := f; archivePath := paths !! index |}) fs =
  zip_with (λ f path, {| file := f; archivePath := Some path |}) fs paths.
Proof.
  revert paths. induction fs as [|f fs IH]; intros [|path paths] Hlen;
    simpl in *; try done.
  f_equal. apply IH. congruence.
Qed.

(** C3. For an archive that JSZip opened, with distinct entry names and whose
    file entries can all be read, [extractFilesFromZip] resolves to one child
    per non-directory entry, in the order of enumeration: there are as many
    children as non-directory entries, and child [k] carries the bytes of
    non-directory entry [k], the basename of its name as file name and the
    dirname of its name as [archivePath]. An archive with no entry, or with
    directories only, gives the empty list. *)
Theorem extractFilesFromZip_children (zipFile : File) (zip : JSZip) :
  loadAsync zipFile = Js.Return zip →
  wellFormed zip →
  Forall (λ o, dir o = false → ∃ blob, async_blob o = Js.Return blob) (files zip) →
  ∃ children,
    extractFilesFromZip zipFile = Js.Return children
    ∧ length children = length (fileEntries zip)
    ∧ Forall2 (λ o child,
                 async_blob o = Js.Return (file_bytes (file child))
                 ∧ file_name (file child) = basename (name o)
                 ∧ archivePath child = Some (dirname (name o)))
        (fileEntries zip) children
    ∧ (Forall (λ o, dir o = true) (files zip) → children = []).
Proof.
  intros Hload Hwf Hread.
  assert (∃ blobs, Forall2 (λ o blob, async_blob o = Js.Return blob)
                     (fileEntries zip) blobs) as [blobs Hblobs].
  { induction Hread as [|o l Ho _ [blobs IH]]; [by exists []|].
    rewrite filter_cons. destruct (decide (dir o = false)) as [Hdir|Hdir].
    - destruct (Ho Hdir) as [blob Hblob]. exists (blob :: blobs). by constructor.
    - by exists blobs. }
  set (childOf := λ (o : ZipObject) (blob : list Byte.byte),
         {| file := mkFile (basename (name o)) blob;
            archivePath := Some (dirname (name o)) |}).
  exists (zip_with childOf (fileEntries zip) blobs).
  assert (length blobs = length (fileEntries zip)) as Hlen
    by (symmetry; by eapply Forall2_length).
  split; [|split; [|split]].
  - unfold extractFilesFromZip. rewrite Hload.
    rewrite forEach_arrays by (intros o Hin Hdir; by apply zip_file_entry). simpl.
    rewrite (Promise_all_resolved _ _
               (zip_with (λ o blob, mkFile (basename (name o)) blob)
                  (fileEntries zip) blobs)).
    + simpl. rewrite imap_paths.
      * f_equal. clear Hlen. induction Hblobs; simpl; [done|]. by f_equal.
      * rewrite length_fmap, length_zip_with. lia.
    + clear Hlen. induction Hblobs as [|o blob l blobs Ho _ IH]; simpl;
        constructor; [by rewrite Ho | done].
  - rewrite length_zip_with. lia.
  - clear Hlen. induction Hblobs; simpl; by constructor.
  - intros Hdirs.
    assert (fileEntries zip = []) as Hnone.
    { clear -Hdirs. induction Hdirs as [|o l Ho _ IH]; [done|].
      rewrite filter_cons, decide_False; [done | congruence]. }
    clear Hlen. rewrite Hnone in *. by inversion Hblobs.
Qed.

End ZipFacts.

Section ZipExamples.
Import Zip.
#[local] Existing Instance Examples.examplePathModule.
#[local] Existing Instance Examples.exampleJSZipModule.

(** C3, on an archive with one directory and three files, two of them
    nested: three children. *)
Lemma extractFilesFromZip_example_archive :
  ∃ children,
    extractFilesFromZip Examples.exampleZipFile = Js.Return children
    ∧ length children = 3%nat.
Proof.
  destruct (extractFilesFromZip_children
              Examples.exampleZipFile Examples.exampleArchive)
    as (children & Hchildren & Hlen & _).
  - reflexivity.
  - unfold wellFormed. simpl. apply (bool_decide_unpack _). vm_compute. exact I.
  - simpl. repeat constructor; intros _; eexists; reflexivity.
  - exists children. split; [exact Hchildren | exact Hlen].
Defined.

(** The children of that archive, spelled out. *)
Example extractFilesFromZip_example_children :
  extractFilesFromZip Examples.exampleZipFile =
  Js.Return
    [ {| file := {| file_name := "brain.nii"; file_bytes := [Byte.x01] |};
         archivePath := Some "scans" |};
      {| file := {| file_name := "0001.dcm"; file_bytes := [Byte.x02; Byte.x03] |};
         archivePath := Some "scans/series" |};
      {| file := {| file_name := "notes.txt"; file_bytes := [] |};
         archivePath := Some "" |} ].
Proof. reflexivity. Qed.

End ZipExamples.

(** ** The single-file import handler *)

Section HandlerFacts.
Import ImportSingleFile.
Context {DataObject ImageStore FileStore : Type}.
Context `{!ReadersModule DataObject}.
Context `{!ImageStoreModule DataObject ImageStore}.
Context `{!FileStoreModule FileStore}.

(** C7. A data source without a file source, or whose file type has no
    registered reader, is returned as it is: [done] is not called, nothing is
    thrown, and the stores are left as they were. *)
Theorem importSingleFile_passes_through (dataSource : DataSource)
  (s : HandlerState ImageStore FileStore) :
  fileSrc dataSource = None
  ∨ (∃ src, fileSrc dataSource = Some src
            ∧ FILE_READERS !! fileType src = None) →
  importSingleFile dataSource s = (Js.Return (Continue dataSource), s).
Proof.
  intros [Hnone|(src & Hsrc & Hreader)]; unfold importSingleFile.
  - by rewrite Hnone.
  - rewrite Hsrc. unfold Map_has. rewrite Hreader.
    rewrite bool_decide_eq_false_2; [done|]. by intros [? ?].
Qed.

(** C6. For a data source with a file source whose file type has a registered
    reader: when the reader decodes an image ([vtkImageData]), the handler
    registers it with the image store under the file's name, adds the source
    to the file store under the id it got, calls [done] once, with
    [{ dataID, dataSource, dataType: 'image' }], and returns what [done]
    returned; when the reader decodes anything else, the handler throws the
    error [Data reader did not produce a valid dataset] and leaves the stores
    as they were; when the reader fails, its error is thrown. *)
Theorem importSingleFile_imports_or_throws (dataSource : DataSource)
  (src : FileSource) (reader : File → Js.Completion DataObject)
  (s : HandlerState ImageStore FileStore) :
  fileSrc dataSource = Some src →
  FILE_READERS !! fileType src = Some reader →
  match reader (file src) with
  | Js.Return dataObject =>
      if isA dataObject "vtkImageData"
      then
        let '(dataID, images) :=
          addVTKImageData (file_name (file src)) dataObject (imageStore s) in
        importSingleFile dataSource s =
        (Js.Return Done,
         {| imageStore := images;
            fileStore := fileStore_add dataID [dataSource] (fileStore s);
            doneCalls := doneCalls s ++
              [ {| dataID := dataID; dataSource := dataSource;
                   dataType := image |} ] |})
      else
        importSingleFile dataSource s =
        (Js.Throw (Js.Error "Data reader did not produce a valid dataset"), s)
  | Js.Throw e => importSingleFile dataSource s = (Js.Throw e, s)
  end.
Proof.
  intros Hsrc Hreader. unfold importSingleFile.
  rewrite Hsrc. unfold Map_has, Map_get. rewrite Hreader.
  rewrite bool_decide_eq_true_2 by eauto. simpl.
  unfold mbind, Js.Eff_bind, Js.bind, await.
  destruct (reader (file src)) as [dataObject|e]; [|done].
  destruct (isA dataObject "vtkImageData"); [|done].
  unfold imageStore_addVTKImageData.
  by destruct (addVTKImageData _ _ _) as [dataID images].
Qed.

End HandlerFacts.

Section HandlerExamples.
Import ImportSingleFile.
#[local] Existing Instance Examples.exampleReadersModule.
#[local] Existing Instance Examples.exampleImageStoreModule.
#[local] Existing Instance Examples.exampleFileStoreModule.

(** C7, on a file of a type without a reader. *)
Lemma importSingleFile_passes_txt :
  importSingleFile (Examples.typedDataSource "notes.txt" "txt")
    Examples.emptyHandlerState
  = (Js.Return (Continue (Examples.typedDataSource "notes.txt" "txt")),
     Examples.emptyHandlerState).
Proof.
  apply (importSingleFile_passes_through
           (Examples.typedDataSource "notes.txt" "txt")).
  right. eexists. split; reflexivity.
Defined.

(** C6, on a file that decodes to an image. *)
Lemma importSingleFile_imports_nii :
  importSingleFile (Examples.typedDataSource "brain.nii" "nii")
    Examples.emptyHandlerState
  = (Js.Return Done,
     {| imageStore := ["image:brain.nii"];
        fileStore := [("image:brain.nii",
                       [Examples.typedDataSource "brain.nii" "nii"])];
        doneCalls :=
          [ {| dataID := "image:brain.nii";
               dataSource := Examples.typedDataSource "brain.nii" "nii";
               dataType := image |} ] |}).
Proof.
  exact (importSingleFile_imports_or_throws
           (Examples.typedDataSource "brain.nii" "nii") _ _
           Examples.emptyHandlerState eq_refl eq_refl).
Defined.

(** C6, on a file that decodes to a mesh: the handler throws. *)
Example importSingleFile_throws_on_vtp :
  importSingleFile (Examples.typedDataSource "mesh.vtp" "vtp")
    Examples.emptyHandlerState
  = (Js.Throw (Js.Error "Data reader did not produce a valid dataset"),
     Examples.emptyHandlerState).
Proof. reflexivity. Qed.

End HandlerExamples.

(** ** The batch driver *)

Section DriverFacts.
Import LoadUserFiles.
Context {DataSelection : Type}.
Context `{DataSourceModule} `{ImportCommonModule}.
Context `{!ImportDataSourcesModule DataSelection}.

Local Abbreviation World' := (World DataSelection).

Lemma loggingCall_reportingCall (c : Call DataSelection) :
  loggingCall c → reportingCall c.
Proof. by destruct c. Qed.

Lemma setErrorCalls_app (t1 t2 : list (Call DataSelection)) :
  setErrorCalls (t1 ++ t2) = setErrorCalls t1 ++ setErrorCalls t2.
Proof. apply omap_app. Qed.

Lemma setPrimarySelectionCalls_app (t1 t2 : list (Call DataSelection)) :
  setPrimarySelectionCalls (t1 ++ t2)
  = setPrimarySelectionCalls t1 ++ setPrimarySelectionCalls t2.
Proof. apply omap_app. Qed.

Lemma setErrorCalls_logging (logs : list (Call DataSelection)) :
  Forall loggingCall logs → setErrorCalls logs = [].
Proof.
  induction 1 as [|c logs Hc _ IH]; [done|]. by destruct c.
Qed.

Lemma setPrimarySelectionCalls_logging (logs : list (Call DataSelection)) :
  Forall loggingCall logs → setPrimarySelectionCalls logs = [].
Proof.
  induction 1 as [|c logs Hc _ IH]; [done|]. by destruct c.
Qed.

(** *** The error report *)

(** How a bind and a [mapM] step run. *)
Lemma bind_run {S A B} (m : Js.Eff S A) (k : A → Js.Eff S B) (s : S) :
  (m ≫= k) s =
  match m s with
  | (Js.Return a, s') => k a s'
  | (Js.Throw e, s') => (Js.Throw e, s')
  end.
Proof. reflexivity. Qed.

Lemma mapM_cons_run {S A B} (f : A → Js.Eff S B) (x : A) (l : list A) (s : S) :
  mapM f (x :: l) s =
  match f x s with
  | (Js.Return y, s1) =>
      match mapM f l s1 with
      | (Js.Return ys, s2) => (Js.Return (y :: ys), s2)
      | (Js.Throw e, s2) => (Js.Throw e, s2)
      end
  | (Js.Throw e, s1) => (Js.Throw e, s1)
  end.
Proof.
  cbn [mapM]. rewrite bind_run. destruct (f x s) as [[y|e] s1]; [|done].
  rewrite bind_run. by destruct (mapM f l s1) as [[ys|e] s2].
Qed.

(** One message: the entry the spec describes, after a [logError]; a result
    without error record throws instead. *)
Lemma errorMessage_run (r : PipelineResult) (w : World') :
  errorMessage r w =
  match errors r with
  | [] =>
      (Js.Throw (Js.TypeError
         "Cannot read properties of undefined (reading 'inputDataStackTrace')"),
       w)
  | firstError :: _ =>
      (Js.Return (spec_errorEntry r),
       {| stores := stores w;
          calls := calls w ++ [CallLogError (cause firstError)] |})
  end.
Proof.
  unfold errorMessage, spec_errorEntry. by destruct (errors r).
Qed.

(** Whatever the errored results, building the messages only logs. *)
Lemma mapM_errorMessage_calls (errored : list PipelineResult) (w : World') :
  ∃ logs,
    calls (mapM errorMessage errored w).2 = calls w ++ logs
    ∧ stores (mapM errorMessage errored w).2 = stores w
    ∧ Forall loggingCall logs.
Proof.
  revert w. induction errored as [|r errored IH]; intros w.
  - exists []. by rewrite app_nil_r.
  - rewrite mapM_cons_run, errorMessage_run.
    destruct (errors r) as [|firstError rest].
    + exists []. by rewrite app_nil_r.
    + set (w1 := {| stores := stores w; calls := _ |}).
      destruct (IH w1) as (logs & Hcalls & Hstores & Hlogs).
      exists (CallLogError (cause firstError) :: logs).
      destruct (mapM errorMessage errored w1) as [[messages|e] w2]; simpl in *;
        (split; [by rewrite Hcalls, <- app_assoc|]);
        (split; [done | by constructor]).
Qed.

(** When every errored result has an error record, the messages are the
    entries the spec describes. *)
Lemma mapM_errorMessage_entries (errored : list PipelineResult) (w : World') :
  Forall (λ r, errors r ≠ []) errored →
  (mapM errorMessage errored w).1 = Js.Return (spec_errorEntry <$> errored).
Proof.
  intros Hall. revert w. induction Hall as [|r errored Hr _ IH]; intros w.
  - done.
  - rewrite mapM_cons_run, errorMessage_run.
    destruct (errors r) as [|firstError rest]; [done|].
    set (w1 := {| stores := stores w; calls := _ |}).
    specialize (IH w1).
    destruct (mapM errorMessage errored w1) as [[messages|e] w2]; simpl in *;
      by inversion IH.
Qed.

(** The error report, whether or not it completes: calls of the report only,
    none of them on the primary selection, and the stores as they were. *)
Lemma reportErrors_calls (errored : list PipelineResult) (w : World') :
  ∃ t,
    calls (reportErrors errored w).2 = calls w ++ t
    ∧ stores (reportErrors errored w).2 = stores w
    ∧ Forall reportingCall t
    ∧ setPrimarySelectionCalls t = [].
Proof.
  unfold reportErrors. destruct (bool_decide (errored = [])); simpl.
  - exists []. by rewrite app_nil_r.
  - unfold mbind, Js.Eff_bind, Js.bind.
    destruct (mapM_errorMessage_calls errored w) as (logs & Hcalls & Hstores & Hlogs).
    destruct (mapM errorMessage errored w) as [[messages|e] w1]; simpl in *.
    + exists (logs ++ [CallSetError
                         (Js.Error ("These files failed to load:" +:+ Js.LF
                                    +:+ Js.join Js.LF messages))]).
      rewrite Hcalls, <- app_assoc. repeat split; [done|..].
      * apply Forall_app. split; [|by repeat constructor].
        eapply Forall_impl; [done | apply loggingCall_reportingCall].
      * rewrite setPrimarySelectionCalls_app.
        by rewrite setPrimarySelectionCalls_logging.
    + exists logs. repeat split; [done..| |].
      * eapply Forall_impl; [done | apply loggingCall_reportingCall].
      * by apply setPrimarySelectionCalls_logging.
Qed.

(** The error report on errored results that all have an error record: it
    completes, and its one call of [setError] carries the header line and the
    entries. *)
Lemma reportErrors_setError (errored : list PipelineResult) (w : World') :
  errored ≠ [] →
  Forall (λ r, errors r ≠ []) errored →
  ∃ t,
    (reportErrors errored w).1 = Js.Return tt
    ∧ calls (reportErrors errored w).2 = calls w ++ t
    ∧ setErrorCalls t =
      [Js.Error ("These files failed to load:" +:+ Js.LF
                 +:+ spec_aggregateMessage errored)].
Proof.
  intros Hne Hall. unfold reportErrors.
  rewrite bool_decide_eq_false_2 by done. simpl.
  unfold mbind, Js.Eff_bind, Js.bind.
  destruct (mapM_errorMessage_calls errored w) as (logs & Hcalls & Hstores & Hlogs).
  pose proof (mapM_errorMessage_entries errored w Hall) as Hentries.
  destruct (mapM errorMessage errored w) as [[messages|e] w1]; simpl in *;
    [|done].
  injection Hentries as ->.
  eexists (logs ++ [_]). split; [done|].
  split; [by rewrite Hcalls, <- app_assoc|].
  rewrite setErrorCalls_app. by rewrite setErrorCalls_logging.
Qed.

(** *** The primary selection *)

(** The selection step completes; it calls [setPrimarySelection] at most, and
    nothing at all when the store has a primary selection. *)
Lemma selectPrimary_run (succeeded : list PipelineResult) (w : World') :
  ∃ t,
    (selectPrimary succeeded w).1 = Js.Return tt
    ∧ calls (selectPrimary succeeded w).2 = calls w ++ t
    ∧ Forall reportingCall t
    ∧ setErrorCalls t = []
    ∧ (is_Some (primarySelection (dataStore (stores w))) →
       t = [] ∧ stores (selectPrimary succeeded w).2 = stores w).
Proof.
  unfold selectPrimary, mbind, Js.Eff_bind, Js.bind, Js.gets. simpl.
  destruct (bool_decide (is_Some (primarySelection (dataStore (stores w)))))
    eqn:Hsel; simpl.
  - exists []. rewrite app_nil_r. by repeat split.
  - apply bool_decide_eq_false in Hsel.
    destruct (bool_decide (succeeded = [])); simpl.
    + exists []. rewrite app_nil_r. by repeat split.
    + destruct (isVolumeResult _); simpl.
      * eexists [_]. repeat split; [by repeat constructor | done..].
      * exists []. rewrite app_nil_r. by repeat split.
Qed.

(** *** The run as a whole *)

Lemma loadResults_run (results : list PipelineResult) (w : World') :
  loadResults results w =
  reportErrors (Pipeline.partitionResults results).2
    (selectPrimary (Pipeline.partitionResults results).1 w).2.
Proof.
  unfold loadResults.
  destruct (Pipeline.partitionResults results) as [succeeded errored]. simpl.
  rewrite bind_run.
  destruct (selectPrimary_run succeeded w) as (t & Hret & _).
  destruct (selectPrimary succeeded w) as [[[]|e] w1]; simpl in *; done.
Qed.

Lemma load_run (sources : list DataSource) (w : World') :
  load sources w =
  match importDataSources sources (stores w) with
  | (Js.Return results, stores1) =>
      loadResults results
        {| stores := stores1;
           calls := calls w ++ [CallImportDataSources sources] |}
  | (Js.Throw error, stores1) =>
      (Js.Return tt,
       {| stores := stores1;
          calls := (calls w ++ [CallImportDataSources sources])
                   ++ [CallSetError error] |})
  end.
Proof.
  unfold load. rewrite bind_run. unfold Js.try_catch.
  rewrite bind_run. unfold awaitImportDataSources. rewrite bind_run.
  unfold call, Js.modify, onStores. simpl.
  by destruct (importDataSources sources (stores w)) as [[results|error] stores1].
Qed.

Lemma loadDataSources_run (sources : list DataSource) (w : World') :
  loadDataSources sources w =
  let after :=
    load sources {| stores := stores w; calls := calls w ++ [CallStartLoading] |} in
  (after.1,
   {| stores := stores after.2; calls := calls after.2 ++ [CallStopLoading] |}).
Proof.
  unfold loadDataSources, wrapWithLoading, Js.try_finally.
  rewrite bind_run. unfold startLoading, stopLoading, call, Js.modify. simpl.
  by destruct (load sources _) as [c w1].
Qed.

(** What [load] does after the import returned: calls of the report only,
    and with a primary selection in the store no [setPrimarySelection] and no
    change of the stores. *)
Lemma loadResults_calls (results : list PipelineResult) (w : World') :
  ∃ t,
    calls (loadResults results w).2 = calls w ++ t
    ∧ Forall reportingCall t
    ∧ (is_Some (primarySelection (dataStore (stores w))) →
       setPrimarySelectionCalls t = []
       ∧ stores (loadResults results w).2 = stores w).
Proof.
  rewrite loadResults_run.
  destruct (selectPrimary_run (Pipeline.partitionResults results).1 w)
    as (t1 & _ & Hcalls1 & Hrep1 & _ & Hsel).
  destruct (reportErrors_calls (Pipeline.partitionResults results).2
              (selectPrimary (Pipeline.partitionResults results).1 w).2)
    as (t2 & Hcalls2 & Hstores2 & Hrep2 & Hnone2).
  exists (t1 ++ t2). split; [by rewrite Hcalls2, Hcalls1, app_assoc|].
  split; [by apply Forall_app|].
  intros [-> Hstores1]%Hsel. split; [done|]. by rewrite Hstores2.
Qed.

(** What [load] does after the import, whatever the import did. *)
Lemma load_calls (sources : list DataSource) (w : World') :
  ∃ mid,
    calls (load sources w).2
    = calls w ++ [CallImportDataSources sources] ++ mid
    ∧ Forall reportingCall mid
    ∧ (is_Some (primarySelection
                  (dataStore (importDataSources sources (stores w)).2)) →
       setPrimarySelectionCalls mid = []
       ∧ stores (load sources w).2 = (importDataSources sources (stores w)).2).
Proof.
  rewrite load_run.
  destruct (importDataSources sources (stores w)) as [[results|error] stores1].
  - set (w1 := {| stores := stores1; calls := _ |}).
    destruct (loadResults_calls results w1) as (t & Hcalls & Hrep & Hsel).
    exists t. split; [rewrite Hcalls; subst w1; simpl; by rewrite <- app_assoc|].
    by split.
  - exists [CallSetError error]. simpl. split; [by rewrite <- app_assoc|].
    split; [by repeat constructor | done].
Qed.

(** C8 (amended). When the import returned results of which at least one is
    errored, each errored result having an error record, the run completes
    and calls [setError] exactly once, with an Error whose message is the line
    [These files failed to load:], a line feed, and the newline-joined
    entries ["- <name>: <message>"], one per errored result in order, the
    message being that result's first error message and the name the display
    name of entry 0 of that error's stack trace. *)
Theorem loadDataSources_reports_errors (sources : list DataSource) (w : World')
  (results : list PipelineResult) (stores1 : Stores DataSelection) :
  importDataSources sources (stores w) = (Js.Return results, stores1) →
  (Pipeline.partitionResults results).2 ≠ [] →
  Forall (λ r, errors r ≠ []) (Pipeline.partitionResults results).2 →
  ∃ trace,
    (loadDataSources sources w).1 = Js.Return tt
    ∧ calls (loadDataSources sources w).2 = calls w ++ trace
    ∧ setErrorCalls trace =
      [Js.Error ("These files failed to load:" +:+ Js.LF
                 +:+ spec_aggregateMessage (Pipeline.partitionResults results).2)].
Proof.
  intros Himport Hne Hall.
  rewrite loadDataSources_run. cbv zeta. rewrite load_run. simpl stores.
  rewrite Himport, loadResults_run.
  set (w1 := {| stores := stores1; calls := _ |}).
  destruct (selectPrimary_run (Pipeline.partitionResults results).1 w1)
    as (t1 & _ & Hcalls1 & _ & Hnone1 & _).
  destruct (reportErrors_setError (Pipeline.partitionResults results).2
              (selectPrimary (Pipeline.partitionResults results).1 w1).2 Hne Hall)
    as (t2 & Hret & Hcalls2 & Hset).
  exists ([CallStartLoading; CallImportDataSources sources]
          ++ t1 ++ t2 ++ [CallStopLoading]).
  split; [done|]. split.
  - cbn [snd calls]. rewrite Hcalls2, Hcalls1. subst w1. cbn [calls].
    by rewrite <- !app_assoc.
  - rewrite !setErrorCalls_app, Hnone1, Hset. done.
Qed.

(** C9. If the dataset store has a primary selection when the import is over
    (whether it returned or threw), the run never calls [setPrimarySelection],
    and it leaves the stores, the primary selection among them, as the import
    left them. *)
Theorem loadDataSources_keeps_primarySelection (sources : list DataSource)
  (w : World') (selection : DataSelection) :
  primarySelection (dataStore (importDataSources sources (stores w)).2)
    = Some selection →
  ∃ trace,
    calls (loadDataSources sources w).2 = calls w ++ trace
    ∧ setPrimarySelectionCalls trace = []
    ∧ stores (loadDataSources sources w).2
      = (importDataSources sources (stores w)).2
    ∧ primarySelection (dataStore (stores (loadDataSources sources w).2))
      = Some selection.
Proof.
  intros Hsel. rewrite loadDataSources_run. cbv zeta.
  set (w0 := {| stores := stores w; calls := _ |}).
  destruct (load_calls sources w0) as (mid & Hcalls & _ & Hkeep).
  destruct Hkeep as [Hnone Hstores]; [simpl; by rewrite Hsel|].
  exists ([CallStartLoading; CallImportDataSources sources]
          ++ mid ++ [CallStopLoading]).
  cbn [snd calls stores]. rewrite Hcalls, Hstores. subst w0. cbn [calls stores].
  split; [by rewrite <- !app_assoc|].
  split; [|done].
  rewrite !setPrimarySelectionCalls_app, Hnone. done.
Qed.

(** C10. Every run of [loadDataSources], and so of [loadFiles], calls
    [startLoading] first, then starts the import, and calls [stopLoading]
    last, however the import and the steps after it complete: in between are
    calls on the selection, the log and the error only, so [startLoading] and
    [stopLoading] are called once each. *)
Theorem loadDataSources_brackets_loading :
  (∀ (sources : list DataSource) (w : World'),
     ∃ mid,
       calls (loadDataSources sources w).2
       = calls w ++ [CallStartLoading; CallImportDataSources sources]
                 ++ mid ++ [CallStopLoading]
       ∧ Forall reportingCall mid)
  ∧ (∀ (files : list File) (w : World'),
       ∃ mid,
         calls (loadFiles files w).2
         = calls w ++ [CallStartLoading;
                       CallImportDataSources (fileToDataSource <$> files)]
                   ++ mid ++ [CallStopLoading]
         ∧ Forall reportingCall mid).
Proof.
  assert (∀ (sources : list DataSource) (w : World'),
            ∃ mid,
              calls (loadDataSources sources w).2
              = calls w ++ [CallStartLoading; CallImportDataSources sources]
                        ++ mid ++ [CallStopLoading]
              ∧ Forall reportingCall mid) as Hrun.
  { intros sources w. rewrite loadDataSources_run. cbv zeta.
    set (w0 := {| stores := stores w; calls := _ |}).
    destruct (load_calls sources w0) as (mid & Hcalls & Hrep & _).
    exists mid. split; [|done].
    cbn [snd calls]. rewrite Hcalls. subst w0. cbn [calls].
    by rewrite <- !app_assoc. }
  split; [exact Hrun|].
  intros files w. apply Hrun.
Qed.

End DriverFacts.

Section DriverExamples.
Import LoadUserFiles.
#[local] Existing Instance Examples.exampleDataSourceModule.
#[local] Existing Instance Examples.exampleImportCommonModule.
#[local] Existing Instance Examples.exampleImportDataSourcesModule.

(** C8 (amended), on a batch of one good and one bad file. *)
Lemma loadDataSources_reports_bad_nii :
  ∃ trace,
    (loadDataSources
       [Examples.fileDataSource "brain.nii"; Examples.fileDataSource "bad.nii"]
       (Examples.exampleWorld None)).1 = Js.Return tt
    ∧ calls (loadDataSources
               [Examples.fileDataSource "brain.nii"; Examples.fileDataSource "bad.nii"]
               (Examples.exampleWorld None)).2
      = calls (Examples.exampleWorld None) ++ trace
    ∧ setErrorCalls trace =
      [Js.Error ("These files failed to load:" +:+ Js.LF
                 +:+ spec_aggregateMessage
                       [Examples.exampleImport (Examples.fileDataSource "bad.nii")])].
Proof.
  refine (loadDataSources_reports_errors
            [Examples.fileDataSource "brain.nii"; Examples.fileDataSource "bad.nii"]
            (Examples.exampleWorld None)
            (Examples.exampleImport <$>
               [Examples.fileDataSource "brain.nii"; Examples.fileDataSource "bad.nii"])
            (stores (Examples.exampleWorld None)) _ _ _).
  - reflexivity.
  - vm_compute. discriminate.
  - vm_compute. repeat constructor; discriminate.
Defined.

(** C8 as the spec words it fails on a batch with one bad file: the message
    [setError] gets is not the list of entries alone, it starts with the line
    [These files failed to load:]. *)
Lemma loadDataSources_message_has_header :
  setErrorCalls
    (calls (loadDataSources [Examples.fileDataSource "bad.nii"]
              (Examples.exampleWorld None)).2)
  = [Js.Error ("These files failed to load:" +:+ Js.LF +:+ "- bad.nii: boom")]
  ∧ spec_aggregateMessage
      (Pipeline.partitionResults
         [Examples.exampleImport (Examples.fileDataSource "bad.nii")]).2
    = "- bad.nii: boom"
  ∧ "These files failed to load:" +:+ Js.LF +:+ "- bad.nii: boom"
    ≠ "- bad.nii: boom".
Proof. split; [reflexivity | split; [reflexivity | discriminate]]. Qed.

(** C9, on a store that has the selection [existing] before a file loads. *)
Lemma loadDataSources_keeps_existing_selection :
  ∃ trace,
    calls (loadDataSources [Examples.fileDataSource "brain.nii"]
             (Examples.exampleWorld (Some "existing"))).2
    = calls (Examples.exampleWorld (Some "existing")) ++ trace
    ∧ setPrimarySelectionCalls trace = []
    ∧ stores (loadDataSources [Examples.fileDataSource "brain.nii"]
                (Examples.exampleWorld (Some "existing"))).2
      = stores (Examples.exampleWorld (Some "existing"))
    ∧ primarySelection
        (dataStore
           (stores (loadDataSources [Examples.fileDataSource "brain.nii"]
                      (Examples.exampleWorld (Some "existing"))).2))
      = Some "existing".
Proof.
  refine (loadDataSources_keeps_primarySelection
            [Examples.fileDataSource "brain.nii"]
            (Examples.exampleWorld (Some "existing")) "existing" _).
  reflexivity.
Defined.

(** Without a primary selection the same batch selects the image. *)
Example loadDataSources_selects_brain_nii :
  calls (loadDataSources [Examples.fileDataSource "brain.nii"]
           (Examples.exampleWorld None)).2
  = [CallStartLoading;
     CallImportDataSources [Examples.fileDataSource "brain.nii"];
     CallSetPrimarySelection "brain.nii";
     CallStopLoading].
Proof. reflexivity. Qed.

(** C10, on a run whose error report throws (a failure without an error
    record): [stopLoading] is still the last call. *)
Example loadDataSources_stops_after_throw :
  loadDataSources [Examples.fileDataSource "broken.nii"] (Examples.exampleWorld None)
  = (Js.Throw (Js.TypeError
       "Cannot read properties of undefined (reading 'inputDataStackTrace')"),
     {| stores := stores (Examples.exampleWorld None);
        calls := [CallStartLoading;
                  CallImportDataSources [Examples.fileDataSource "broken.nii"];
                  CallStopLoading] |}).
Proof. reflexivity. Qed.

(** C10, on a run whose import throws: the error is reported and
    [stopLoading] is the last call. *)
Example loadDataSources_stops_after_failed_import :
  calls (loadFiles
           (replicate 4 {| file_name := "brain.nii"; file_bytes := [] |})
           (Examples.exampleWorld None)).2
  = [CallStartLoading;
     CallImportDataSources (replicate 4 (Examples.fileDataSource "brain.nii"));
     CallSetError (Js.Error "too many files");
     CallStopLoading].
Proof. reflexivity. Qed.

End DriverExamples.

(** ** More on the primary-selection heuristic *)

Section DicomCandidates.
Import LoadUserFiles.

Lemma toBaseDicomVolume_Some (dicomStore : DicomStore) (x : ImportResult)
  (v : BaseDicomVolume) :
  toBaseDicomVolume dicomStore x = Some v →
  dicomSource v = x
  ∧ ∃ info, volumeInfo dicomStore !! dataID x = Some info
            ∧ Js.has_property (Modality info) BASE_MODALITY_TYPES = true.
Proof.
  unfold toBaseDicomVolume.
  destruct (volumeInfo dicomStore !! dataID x) as [info|]; [|done]. simpl.
  destruct (Js.has_property (Modality info) BASE_MODALITY_TYPES) eqn:Hin; [|done].
  intros [= <-]. split; [done|]. by exists info.
Qed.

Lemma toBaseDicomVolume_None (dicomStore : DicomStore) (x : ImportResult) :
  toBaseDicomVolume dicomStore x = None ↔
  ∀ info, volumeInfo dicomStore !! dataID x = Some info →
          Js.has_property (Modality info) BASE_MODALITY_TYPES = false.
Proof.
  unfold toBaseDicomVolume.
  destruct (volumeInfo dicomStore !! dataID x) as [info|]; simpl.
  - destruct (Js.has_property (Modality info) BASE_MODALITY_TYPES) eqn:Hin.
    + split; [done|]. intros Hno. specialize (Hno info eq_refl). congruence.
    + split; [|done]. by intros _ ? [= <-].
  - by split.
Qed.

Lemma sort_nil {A} (comparefn : A → A → Js.number) (l : list A) :
  Js.sort comparefn l = [] ↔ l = [].
Proof.
  split; [|by intros ->].
  intros Hnil. apply Permutation_nil_r. rewrite <- Hnil. symmetry.
  apply sort_permutation.
Qed.

Lemma findBaseDicom_None (dicomStore : DicomStore) (l : list ImportResult) :
  findBaseDicom dicomStore l = None ↔
  ∀ r info, r ∈ l → dataType r = dicom →
            volumeInfo dicomStore !! dataID r = Some info →
            Js.has_property (Modality info) BASE_MODALITY_TYPES = false.
Proof.
  unfold findBaseDicom.
  set (candidates := omap (toBaseDicomVolume dicomStore)
                       (filter (λ r, dataType r = dicom) l)).
  destruct (Js.sort compareBaseDicomVolumes candidates) as [|first rest]
    eqn:Hsorted.
  - apply sort_nil in Hsorted. split; [intros _|done].
    intros r info Hr Hdicom Hinfo.
    destruct (toBaseDicomVolume dicomStore r) as [v|] eqn:Hv.
    + assert (v ∈ candidates) as Hin.
      { apply list_elem_of_omap. exists r. split; [|done].
        by apply list_elem_of_filter. }
      rewrite Hsorted in Hin. by apply not_elem_of_nil in Hin.
    + by apply (proj1 (toBaseDicomVolume_None dicomStore r) Hv).
  - split; [done|]. intros Hnone. exfalso.
    assert (first ∈ candidates) as Hin.
    { rewrite <- (sort_permutation compareBaseDicomVolumes candidates), Hsorted.
      by left. }
    apply list_elem_of_omap in Hin as (x & [Hdicom Hx]%list_elem_of_filter & Hv).
    apply toBaseDicomVolume_Some in Hv as (_ & info & Hinfo & Hprop).
    by rewrite (Hnone x info Hx Hdicom Hinfo) in Hprop.
Qed.

Lemma findBaseDicom_Some (dicomStore : DicomStore) (l : list ImportResult)
  (r : ImportResult) :
  findBaseDicom dicomStore l = Some r →
  r ∈ l ∧ dataType r = dicom
  ∧ ∃ info, volumeInfo dicomStore !! dataID r = Some info
            ∧ Js.has_property (Modality info) BASE_MODALITY_TYPES = true.
Proof.
  unfold findBaseDicom.
  set (candidates := omap (toBaseDicomVolume dicomStore)
                       (filter (λ r, dataType r = dicom) l)).
  destruct (Js.sort compareBaseDicomVolumes candidates) as [|first rest]
    eqn:Hsorted; [done|].
  intros [= <-].
  assert (first ∈ candidates) as Hin.
  { rewrite <- (sort_permutation compareBaseDicomVolumes candidates), Hsorted.
    by left. }
  apply list_elem_of_omap in Hin as (x & [Hdicom Hx]%list_elem_of_filter & Hv).
  apply toBaseDicomVolume_Some in Hv as (-> & info & Hinfo & Hprop).
  split; [done|]. split; [done|]. by exists info.
Qed.

(** X1. [findBaseDicom] returns nothing exactly when no result of the list is
    a DICOM result whose volume the DICOM store knows with a modality that is
    a property of the priority table; and what it returns is such a result of
    the list: results of other kinds, and DICOM results without a volume in
    the store, are never returned. *)
Theorem findBaseDicom_candidates (dicomStore : DicomStore) (l : list ImportResult) :
  (findBaseDicom dicomStore l = None ↔
   ∀ r info, r ∈ l → dataType r = dicom →
             volumeInfo dicomStore !! dataID r = Some info →
             Js.has_property (Modality info) BASE_MODALITY_TYPES = false)
  ∧ (∀ r, findBaseDicom dicomStore l = Some r →
          r ∈ l ∧ dataType r = dicom
          ∧ ∃ info, volumeInfo dicomStore !! dataID r = Some info
                    ∧ Js.has_property (Modality info) BASE_MODALITY_TYPES = true).
Proof.
  split; [apply findBaseDicom_None | apply findBaseDicom_Some].
Qed.

(** X2. Of two DICOM results with listed modalities of equal priority and
    equal slice counts, [findBaseDicom] returns the one that comes first in
    the list. *)
Theorem findBaseDicom_tie_keeps_first (dicomStore : DicomStore)
  (x y : ImportResult) (infoX infoY : VolumeInfo) (p n : Z) :
  dataType x = dicom → dataType y = dicom →
  volumeInfo dicomStore !! dataID x = Some infoX →
  volumeInfo dicomStore !! dataID y = Some infoY →
  Js.own_property (Modality infoX) BASE_MODALITY_TYPES = Some p →
  Js.own_property (Modality infoY) BASE_MODALITY_TYPES = Some p →
  NumberOfSlices infoX = Some n → NumberOfSlices infoY = Some n → n ≠ 0 →
  findBaseDicom dicomStore [x; y] = Some x.
Proof.
  intros Hx Hy HinfoX HinfoY Hpx Hpy Hnx Hny Hn.
  rewrite (findBaseDicom_pair _ _ _ _ _ _ _ Hx Hy HinfoX HinfoY Hpx Hpy).
  rewrite (compare_slices _ _ p) by done. simpl. rewrite Hnx, Hny.
  destruct (Z.eqb_spec n 0); [done|]. by rewrite Z.sub_diag.
Qed.

Lemma findBaseDicom_tie_first_CT :
  findBaseDicom MoreExamples.tieDicomStore
    [MoreExamples.firstCT; MoreExamples.secondCT]
  = Some MoreExamples.firstCT.
Proof.
  apply (findBaseDicom_tie_keeps_first MoreExamples.tieDicomStore
           MoreExamples.firstCT MoreExamples.secondCT
           {| Modality := "CT"; NumberOfSlices := Some 12 |}
           {| Modality := "CT"; NumberOfSlices := Some 12 |} 3 12);
    [reflexivity | reflexivity | reflexivity | reflexivity | reflexivity
    | reflexivity | reflexivity | reflexivity | lia].
Defined.

(** The first element of the sorted candidates has the most slices, when the
    candidates share one priority and all have a slice count. *)
Lemma sort_head_most_slices (candidates : list BaseDicomVolume) (p : Z)
  (first : BaseDicomVolume) (rest : list BaseDicomVolume) :
  Forall (λ v, priority v = Some p
               ∧ ∃ n, NumberOfSlices (baseVolumeInfo v) = Some n ∧ n ≠ 0)
    candidates →
  Js.sort compareBaseDicomVolumes candidates = first :: rest →
  ∃ n, NumberOfSlices (baseVolumeInfo first) = Some n
       ∧ ∀ v m, v ∈ candidates →
                NumberOfSlices (baseVolumeInfo v) = Some m → m <= n.
Proof.
  intros Hall. revert first rest.
  induction Hall as [|x candidates (Hpx & nx & Hnx & Hnx0) Hall IH];
    intros first rest; [done|].
  simpl. destruct (Js.sort compareBaseDicomVolumes candidates)
    as [|first' rest'] eqn:Hsorted.
  - intros [= <- <-]. exists nx. split; [done|].
    apply sort_nil in Hsorted as ->.
    intros v m ->%list_elem_of_singleton. rewrite Hnx. intros [= <-]. lia.
  - destruct (IH first' rest' eq_refl) as (n' & Hn' & Hmax). simpl.
    assert (first' ∈ candidates) as Hfirst'.
    { rewrite <- (sort_permutation compareBaseDicomVolumes candidates), Hsorted.
      by left. }
    assert (priority first' = Some p ∧ n' ≠ 0) as [Hp' Hn'0].
    { rewrite Forall_forall in Hall.
      destruct (Hall first' Hfirst') as (? & n & Hn & ?). split; [done|].
      congruence. }
    rewrite (compare_slices x first' p) by done. rewrite Hnx, Hn'.
    destruct (Z.eqb_spec nx 0); [done|]. destruct (Z.eqb_spec n' 0); [done|].
    destruct (Z.ltb_spec 0 (n' - nx)) as [Hlt|Hle]; intros [= <- <-].
    + exists n'. split; [done|].
      intros v m [->|Hv]%elem_of_cons Hm; [|by eapply Hmax].
      rewrite Hnx in Hm. injection Hm as <-. lia.
    + exists nx. split; [done|].
      intros v m [->|Hv]%elem_of_cons Hm.
      * rewrite Hnx in Hm. injection Hm as <-. lia.
      * specialize (Hmax v m Hv Hm). lia.
Qed.

(** X19. Whatever the length of the list: when its DICOM candidates all have
    the same priority and all have a slice count, the result [findBaseDicom]
    returns has the most slices of them all. *)
Theorem findBaseDicom_most_slices (dicomStore : DicomStore)
  (l : list ImportResult) (p : Z) (r : ImportResult) :
  (∀ x info, x ∈ l → dataType x = dicom →
             volumeInfo dicomStore !! dataID x = Some info →
             Js.has_property (Modality info) BASE_MODALITY_TYPES = true →
             Js.own_property (Modality info) BASE_MODALITY_TYPES = Some p
             ∧ ∃ n, NumberOfSlices info = Some n ∧ n ≠ 0) →
  findBaseDicom dicomStore l = Some r →
  ∃ info n,
    volumeInfo dicomStore !! dataID r = Some info
    ∧ NumberOfSlices info = Some n
    ∧ ∀ x infoX m,
        x ∈ l → dataType x = dicom →
        volumeInfo dicomStore !! dataID x = Some infoX →
        Js.has_property (Modality infoX) BASE_MODALITY_TYPES = true →
        NumberOfSlices infoX = Some m → m <= n.
Proof.
  intros Hsame. unfold findBaseDicom.
  set (candidates := omap (toBaseDicomVolume dicomStore)
                       (filter (λ x, dataType x = dicom) l)).
  assert (∀ v, v ∈ candidates →
               ∃ x info, x ∈ l ∧ dataType x = dicom
                         ∧ volumeInfo dicomStore !! dataID x = Some info
                         ∧ Js.has_property (Modality info) BASE_MODALITY_TYPES = true
                         ∧ v = candidateOf x info) as Hcand.
  { intros v (x & [Hx Hin]%list_elem_of_filter & Hv)%list_elem_of_omap.
    pose proof Hv as (Hsource & info & Hinfo & Hprop)%toBaseDicomVolume_Some.
    exists x, info. repeat split; try done.
    unfold toBaseDicomVolume in Hv. rewrite Hinfo in Hv. simpl in Hv.
    rewrite Hprop in Hv. by injection Hv as <-. }
  destruct (Js.sort compareBaseDicomVolumes candidates) as [|first rest]
    eqn:Hsorted; [done|].
  intros [= <-].
  destruct (sort_head_most_slices candidates p first rest) as (n & Hn & Hmax);
    [|done|].
  { apply Forall_forall. intros v (x & info & Hx & Hdicom & Hinfo & Hprop & ->)%Hcand.
    by apply (Hsame x info). }
  assert (first ∈ candidates) as Hfirst.
  { rewrite <- (sort_permutation compareBaseDicomVolumes candidates), Hsorted.
    by left. }
  destruct (Hcand first Hfirst) as (x & info & Hx & Hdicom & Hinfo & Hprop & ->).
  exists info, n. repeat split; try done.
  intros y infoY m Hy HdicomY HinfoY HpropY Hm.
  apply (Hmax (candidateOf y infoY) m); [|done].
  apply list_elem_of_omap. exists y. split; [by apply list_elem_of_filter|].
  unfold toBaseDicomVolume. rewrite HinfoY. simpl. by rewrite HpropY.
Qed.

Lemma findBaseDicom_most_slices_CT_MR :
  ∃ info n,
    volumeInfo Examples.exampleDicomStore !! dataID Examples.mrResult = Some info
    ∧ NumberOfSlices info = Some n
    ∧ ∀ x infoX m,
        x ∈ [Examples.ctResult; Examples.mrResult] → dataType x = dicom →
        volumeInfo Examples.exampleDicomStore !! dataID x = Some infoX →
        Js.has_property (Modality infoX) BASE_MODALITY_TYPES = true →
        NumberOfSlices infoX = Some m → m <= n.
Proof.
  apply (findBaseDicom_most_slices Examples.exampleDicomStore
           [Examples.ctResult; Examples.mrResult] 3 Examples.mrResult).
  - intros x info Hx _. apply elem_of_cons in Hx as [->|Hx];
      [|apply list_elem_of_singleton in Hx as ->];
      intros [= <-] _; (split; [reflexivity|]); eexists; (split; [reflexivity|lia]).
  - reflexivity.
Defined.

End DicomCandidates.

Section BaseDataSource.
Import LoadUserFiles.
Context `{DataSourceModule} `{ImportCommonModule}.

(** The loadable results: the results of the succeeded inputs that pass
    [isLoadableResult]. *)
Lemma elem_of_filterLoadableDataSources (succeeded : list PipelineResult)
  (r : ImportResult) :
  r ∈ filterLoadableDataSources succeeded ↔
  ∃ result, result ∈ succeeded ∧ r ∈ data result ∧ isLoadableResult r = true.
Proof.
  unfold filterLoadableDataSources. rewrite list_elem_of_bind. split.
  - intros (result & [Hr Hin]%list_elem_of_filter & Hresult). by exists result.
  - intros (result & Hresult & Hin & Hr). exists result.
    split; [by apply list_elem_of_filter | done].
Qed.

Lemma findBaseImage_elem (l : list ImportResult) (extension : string)
  (r : ImportResult) :
  findBaseImage l extension = Some r → r ∈ l ∧ dataType r = image.
Proof.
  rewrite findBaseImage_head. intros Hhead.
  assert (r ∈ filter (λ r, hasBaseImageName extension r = true
                           ∧ dataType r = image) l) as Hin.
  { destruct (filter _ l) as [|first rest]; simplify_eq/=. by left. }
  apply list_elem_of_filter in Hin. tauto.
Qed.

(** X3. [findBaseDataSource] returns nothing exactly when no succeeded input
    holds a result that passes [isLoadableResult]; and what it returns is
    always such a result of a succeeded input. *)
Theorem findBaseDataSource_loadable (dicomStore : DicomStore)
  (succeeded : list PipelineResult) (extension : string) :
  (findBaseDataSource dicomStore succeeded extension = None ↔
   ∀ result r, result ∈ succeeded → r ∈ data result →
               isLoadableResult r = false)
  ∧ (∀ r, findBaseDataSource dicomStore succeeded extension = Some r →
          ∃ result, result ∈ succeeded ∧ r ∈ data result
                    ∧ isLoadableResult r = true).
Proof.
  split.
  - unfold findBaseDataSource. split.
    + intros Hnone result r Hresult Hr.
      destruct (isLoadableResult r) eqn:Hload; [exfalso|done].
      assert (r ∈ filterLoadableDataSources succeeded) as Hin
        by (apply elem_of_filterLoadableDataSources; by exists result).
      destruct (findBaseDicom _ _); [done|].
      destruct (findBaseImage _ _); [done|].
      apply head_None in Hnone. rewrite Hnone in Hin.
      by apply not_elem_of_nil in Hin.
    + intros Hnone.
      assert (filterLoadableDataSources succeeded = []) as ->; [|done].
      destruct (filterLoadableDataSources succeeded) as [|r rest] eqn:Hl; [done|].
      assert (r ∈ filterLoadableDataSources succeeded) as Hin
        by (rewrite Hl; left).
      apply elem_of_filterLoadableDataSources in Hin
        as (result & Hresult & Hr & Hload).
      by rewrite (Hnone result r Hresult Hr) in Hload.
  - intros r Hbase. apply elem_of_filterLoadableDataSources.
    unfold findBaseDataSource in Hbase.
    destruct (findBaseDicom dicomStore (filterLoadableDataSources succeeded))
      as [d|] eqn:Hdicom.
    + injection Hbase as <-.
      by apply findBaseDicom_Some in Hdicom as [? _].
    + destruct (findBaseImage (filterLoadableDataSources succeeded) extension)
        as [i|] eqn:Himage.
      * injection Hbase as <-. by apply findBaseImage_elem in Himage as [? _].
      * by apply head_Some_elem_of.
Qed.

(** X4. As soon as a succeeded input holds a loadable DICOM result whose
    volume the store knows with a modality that is a property of the priority
    table, [findBaseDataSource] returns a DICOM result, whatever images the
    batch holds and wherever they stand. *)
Theorem findBaseDataSource_prefers_dicom (dicomStore : DicomStore)
  (succeeded : list PipelineResult) (extension : string)
  (result : PipelineResult) (d : ImportResult) (info : VolumeInfo) :
  result ∈ succeeded → d ∈ data result → isLoadableResult d = true →
  dataType d = dicom →
  volumeInfo dicomStore !! dataID d = Some info →
  Js.has_property (Modality info) BASE_MODALITY_TYPES = true →
  ∃ r, findBaseDataSource dicomStore succeeded extension = Some r
       ∧ dataType r = dicom.
Proof.
  intros Hresult Hd Hload Hdicom Hinfo Hprop.
  assert (d ∈ filterLoadableDataSources succeeded) as Hin
    by (apply elem_of_filterLoadableDataSources; by exists result).
  unfold findBaseDataSource.
  destruct (findBaseDicom dicomStore (filterLoadableDataSources succeeded))
    as [r|] eqn:Hbase.
  - exists r. split; [done|].
    by apply findBaseDicom_Some in Hbase as (_ & ? & _).
  - exfalso.
    pose proof (proj1 (findBaseDicom_None _ _) Hbase d info Hin Hdicom Hinfo).
    congruence.
Qed.

(** X5. When no loadable result is a DICOM candidate and none is an image
    with a display name, not empty, that is no segmentation name,
    [findBaseDataSource] returns the first loadable result all the same: a
    batch of segmentation images only selects the first of them. *)
Theorem findBaseDataSource_last_resort (dicomStore : DicomStore)
  (succeeded : list PipelineResult) (extension : string) :
  (∀ r info, r ∈ filterLoadableDataSources succeeded → dataType r = dicom →
             volumeInfo dicomStore !! dataID r = Some info →
             Js.has_property (Modality info) BASE_MODALITY_TYPES = false) →
  (∀ r, r ∈ filterLoadableDataSources succeeded →
        ¬ baseImageCandidate extension r) →
  findBaseDataSource dicomStore succeeded extension
  = head (filterLoadableDataSources succeeded).
Proof.
  intros Hdicom Himage. unfold findBaseDataSource.
  rewrite (proj2 (findBaseDicom_None _ _) Hdicom).
  assert (findBaseImage (filterLoadableDataSources succeeded) extension = None)
    as ->; [|done].
  rewrite findBaseImage_head. apply head_filter_None.
  intros r Hr Hcand. apply (Himage r Hr). apply hasBaseImageName_spec. tauto.
Qed.

End BaseDataSource.

Section BaseDataSourceExamples.
Import LoadUserFiles.
#[local] Existing Instance Examples.exampleDataSourceModule.
#[local] Existing Instance Examples.exampleImportCommonModule.

(** X4, on a batch whose first input is an image and whose second is a CT
    series. *)
Lemma findBaseDataSource_prefers_CT :
  ∃ r, findBaseDataSource Examples.exampleDicomStore
         [PipelineResultSuccess [Examples.brainImage];
          PipelineResultSuccess [Examples.ctResult]] "seg" = Some r
       ∧ dataType r = dicom.
Proof.
  apply (findBaseDataSource_prefers_dicom Examples.exampleDicomStore
           [PipelineResultSuccess [Examples.brainImage];
            PipelineResultSuccess [Examples.ctResult]] "seg"
           (PipelineResultSuccess [Examples.ctResult]) Examples.ctResult
           {| Modality := "CT"; NumberOfSlices := Some 10 |}).
  - right. left.
  - left.
  - reflexivity.
  - reflexivity.
  - reflexivity.
  - reflexivity.
Defined.

(** X5, on a batch of two segmentation images and a DICOM result without a
    volume in the store. *)
Lemma findBaseDataSource_only_segmentations :
  findBaseDataSource Examples.exampleDicomStore
    [PipelineResultSuccess [Examples.brainSegImage; MoreExamples.unknownDicom]]
    "seg"
  = Some Examples.brainSegImage.
Proof.
  refine (findBaseDataSource_last_resort Examples.exampleDicomStore
            [PipelineResultSuccess
               [Examples.brainSegImage; MoreExamples.unknownDicom]] "seg" _ _).
  - intros r info Hr Hdicom Hinfo. simpl in Hr.
    apply elem_of_cons in Hr as [->|Hr]; [done|].
    apply list_elem_of_singleton in Hr as ->. done.
  - intros r Hr [Himage (name & Hname & Hne & Hseg)]. simpl in Hr.
    apply elem_of_cons in Hr as [->|Hr].
    + injection Hname as <-. apply Hseg. apply isSegmentation_spec. reflexivity.
    + apply list_elem_of_singleton in Hr as ->. done.
Defined.

End BaseDataSourceExamples.

(** ** More on segmentation names *)

Section SegmentationNames.
Import LoadUserFiles.

Lemma append_empty_r (s : string) : s +:+ "" = s.
Proof.
  induction s as [|c s IH]; [done|].
  change (String c (s +:+ "") = String c s). by rewrite IH.
Qed.

(** A string without the separator is its own single piece. *)
Lemma split_no_sep (sep : ascii) (s : string) :
  ¬ In sep (list_ascii_of_string s) → Js.split sep s = [s].
Proof.
  induction s as [|c s IH]; simpl; [done|].
  intros Hnot. destruct (Ascii.eqb_spec c sep) as [->|_]; [tauto|].
  rewrite IH by tauto. done.
Qed.

(** Splitting around a separator: the pieces before it, then those after. *)
Lemma split_app (sep : ascii) (s1 s2 : string) :
  Js.split sep (s1 +:+ String sep s2) = Js.split sep s1 ++ Js.split sep s2.
Proof.
  induction s1 as [|c s1 IH]; simpl.
  - by rewrite Ascii.eqb_refl.
  - rewrite IH. destruct (Ascii.eqb c sep); [done|].
    pose proof (split_nonempty sep s1).
    by destruct (Js.split sep s1).
Qed.

(** The first piece is the string up to its first separator. *)
Lemma split_head (sep : ascii) (s piece : string) (pieces : list string) :
  Js.split sep s = piece :: pieces →
  ∃ rest, s = piece +:+ rest
          ∧ (rest = EmptyString ∨ ∃ more, rest = String sep more).
Proof.
  revert piece pieces. induction s as [|c s IH]; intros piece pieces; simpl.
  - intros [= <- <-]. exists EmptyString. by split; [|left].
  - destruct (Ascii.eqb_spec c sep) as [->|_].
    + intros [= <- <-]. exists (String sep s). split; [done|]. right. by exists s.
    + destruct (Js.split sep s) as [|piece' pieces'] eqn:Hsplit.
      * by pose proof (split_nonempty sep s).
      * intros [= <- <-].
        destruct (IH piece' pieces' eq_refl) as (rest & -> & Hrest).
        by exists rest.
Qed.

(** A piece after the first stands in the string between two separators, or
    between a separator and the end. *)
Lemma split_tail_elem (sep : ascii) (s piece : string) :
  piece ∈ tail (Js.split sep s) →
  ∃ stem rest, s = stem +:+ String sep (piece +:+ rest)
               ∧ (rest = EmptyString ∨ ∃ more, rest = String sep more).
Proof.
  induction s as [|c s IH]; simpl.
  - by intros ?%not_elem_of_nil.
  - destruct (Ascii.eqb_spec c sep) as [->|_]; simpl.
    + destruct (Js.split sep s) as [|first pieces] eqn:Hsplit;
        [by intros ?%not_elem_of_nil|].
      intros [->|Hin]%elem_of_cons.
      * destruct (split_head sep s first pieces Hsplit) as (rest & -> & Hrest).
        by exists EmptyString, rest.
      * destruct (IH Hin) as (stem & rest & -> & Hrest).
        by exists (String sep stem), rest.
    + destruct (Js.split sep s) as [|first pieces] eqn:Hsplit; simpl.
      * by intros ?%not_elem_of_nil.
      * intros Hin. destruct (IH Hin) as (stem & rest & -> & Hrest).
        by exists (String c stem), rest.
Qed.

(** X6. An extension that holds a dot (such as [seg.nii]) makes no name a
    segmentation name. *)
Theorem isSegmentation_dotted_extension (extension name : string) :
  In "."%char (list_ascii_of_string extension) →
  isSegmentation extension name = false.
Proof.
  intros Hdot. apply not_true_iff_false. intros Hseg.
  apply isSegmentation_spec in Hseg as [_ Hin].
  apply (split_pieces "." name extension); [|done].
  pose proof (split_nonempty "." name).
  destruct (Js.split "." name); [done|]. by right.
Qed.

Lemma isSegmentation_seg_nii_never :
  isSegmentation "seg.nii" "brain.seg.nii" = false.
Proof.
  apply (isSegmentation_dotted_extension "seg.nii" "brain.seg.nii").
  simpl. tauto.
Defined.

(** X7. For an extension without a dot, a name is a segmentation name exactly
    when the extension is not empty and the name holds [.extension] as a whole
    token: preceded by a dot, and followed by a dot or the end of the name. So
    a name that only starts with the extension, or holds it as part of a
    longer token, is no segmentation name. *)
Theorem isSegmentation_token (extension name : string) :
  ¬ In "."%char (list_ascii_of_string extension) →
  (isSegmentation extension name = true ↔
   extension ≠ ""
   ∧ ∃ stem rest,
       name = stem +:+ "." +:+ extension +:+ rest
       ∧ (rest = "" ∨ ∃ more, rest = "." +:+ more)).
Proof.
  intros Hnodot. rewrite isSegmentation_spec. unfold segmentationName.
  split; intros [Hne Hname]; (split; [done|]).
  - destruct (split_tail_elem "." name extension Hname)
      as (stem & rest & -> & Hrest).
    by exists stem, rest.
  - destruct Hname as (stem & rest & -> & Hrest).
    change (stem +:+ "." +:+ extension +:+ rest)
      with (stem +:+ String "." (extension +:+ rest)).
    rewrite split_app.
    pose proof (split_nonempty "." stem).
    destruct (Js.split "." stem) as [|first pieces]; [done|]. simpl.
    apply elem_of_app. right.
    destruct Hrest as [->|[more ->]].
    + rewrite append_empty_r, split_no_sep by done. by left.
    + change (extension +:+ "." +:+ more)
        with (extension +:+ String "." more).
      rewrite split_app, split_no_sep by done. by left.
Qed.

Lemma isSegmentation_token_seg :
  isSegmentation "seg" "brain.seg.nii.gz" = true ↔
  "seg" ≠ ""
  ∧ ∃ stem rest,
      "brain.seg.nii.gz" = stem +:+ "." +:+ "seg" +:+ rest
      ∧ (rest = "" ∨ ∃ more, rest = "." +:+ more).
Proof.
  apply (isSegmentation_token "seg" "brain.seg.nii.gz").
  simpl. intros [H|[H|[H|[]]]]; discriminate.
Defined.

End SegmentationNames.

(** ** More on the batch driver *)

Section DriverMoreFacts.
Import LoadUserFiles.
Context {DataSelection : Type}.
Context `{DataSourceModule} `{ImportCommonModule}.
Context `{!ImportDataSourcesModule DataSelection}.

Local Abbreviation World' := (World DataSelection).

(** The base data source [load] picks from the stores the import left. *)
Local Abbreviation baseOf stores1 succeeded :=
  (findBaseDataSource (dicomStore stores1) succeeded
     (segmentGroupExtension (loadDataStore stores1))).

Lemma logErrorCalls_app (t1 t2 : list (Call DataSelection)) :
  logErrorCalls (t1 ++ t2) = logErrorCalls t1 ++ logErrorCalls t2.
Proof. apply omap_app. Qed.

(** The selection step, case by case. *)
Lemma selectPrimary_exact (succeeded : list PipelineResult) (w : World') :
  selectPrimary succeeded w =
  if negb (bool_decide (is_Some (primarySelection (dataStore (stores w)))))
     && negb (bool_decide (succeeded = []))
     && isVolumeResult (baseOf (stores w) succeeded)
  then
    (Js.Return tt,
     {| stores :=
          {| dicomStore := dicomStore (stores w);
             dataStore :=
               {| primarySelection :=
                    Some (toDataSelection (baseOf (stores w) succeeded)) |};
             loadDataStore := loadDataStore (stores w) |};
        calls := calls w ++
          [CallSetPrimarySelection
             (toDataSelection (baseOf (stores w) succeeded))] |})
  else (Js.Return tt, w).
Proof.
  unfold selectPrimary, mbind, Js.Eff_bind, Js.bind, Js.gets. simpl.
  destruct (bool_decide (is_Some _)); simpl; [done|].
  destruct (bool_decide (succeeded = [])); simpl; [done|].
  by destruct (isVolumeResult _).
Qed.

(** The messages and the log of the error report, when every errored result
    has an error record. *)
Lemma mapM_errorMessage_exact (errored : list PipelineResult) (w : World') :
  Forall (λ r, errors r ≠ []) errored →
  mapM errorMessage errored w =
  (Js.Return (spec_errorEntry <$> errored),
   {| stores := stores w;
      calls := calls w ++ (CallLogError <$> omap firstErrorCause errored) |}).
Proof.
  intros Hall. revert w. induction Hall as [|r errored Hr _ IH]; intros w.
  - simpl. rewrite app_nil_r. by destruct w.
  - rewrite mapM_cons_run, errorMessage_run, fmap_cons.
    cbn [omap list_omap]. unfold firstErrorCause at 1.
    destruct (errors r) as [|firstError rest]; [done|].
    rewrite IH. simpl. by rewrite <- app_assoc.
Qed.

Lemma reportErrors_exact (errored : list PipelineResult) (w : World') :
  errored ≠ [] →
  Forall (λ r, errors r ≠ []) errored →
  reportErrors errored w =
  (Js.Return tt,
   {| stores := stores w;
      calls := calls w ++ (CallLogError <$> omap firstErrorCause errored)
               ++ [CallSetError
                     (Js.Error ("These files failed to load:" +:+ Js.LF
                                +:+ Js.join Js.LF (spec_errorEntry <$> errored)))] |}).
Proof.
  intros Hne Hall. unfold reportErrors.
  rewrite bool_decide_eq_false_2 by done. simpl.
  rewrite bind_run, mapM_errorMessage_exact by done.
  unfold setError, call, Js.modify. simpl. by rewrite <- app_assoc.
Qed.

Lemma reportErrors_nil (w : World') : reportErrors [] w = (Js.Return tt, w).
Proof. done. Qed.

(** X8. When [importDataSources] throws, [loadDataSources] hands the thrown
    error to [setError] as it is, calls nothing else between [startLoading]
    and [stopLoading], leaves the stores as the import left them, and
    completes normally: the error is not thrown again. *)
Theorem loadDataSources_import_failure (sources : list DataSource) (w : World')
  (error : Js.JsError) (stores1 : Stores DataSelection) :
  importDataSources sources (stores w) = (Js.Throw error, stores1) →
  loadDataSources sources w =
  (Js.Return tt,
   {| stores := stores1;
      calls := calls w ++ [CallStartLoading; CallImportDataSources sources;
                           CallSetError error; CallStopLoading] |}).
Proof.
  intros Himport. rewrite loadDataSources_run. cbv zeta.
  rewrite load_run. cbn [stores calls]. rewrite Himport. cbn [fst snd stores calls].
  by rewrite <- !app_assoc.
Qed.

(** X9. When the import returned, the dataset store has no primary selection,
    at least one input succeeded and the base data source passes
    [isVolumeResult], [loadDataSources] calls [setPrimarySelection] exactly
    once, with [toDataSelection] of the base data source that
    [findBaseDataSource] picks from the succeeded inputs, and that selection
    is the store's primary selection afterwards. This holds whether or not
    other inputs failed. *)
Theorem loadDataSources_selects_base (sources : list DataSource) (w : World')
  (results : list PipelineResult) (stores1 : Stores DataSelection) :
  importDataSources sources (stores w) = (Js.Return results, stores1) →
  primarySelection (dataStore stores1) = None →
  (Pipeline.partitionResults results).1 ≠ [] →
  isVolumeResult (baseOf stores1 (Pipeline.partitionResults results).1) = true →
  ∃ trace,
    calls (loadDataSources sources w).2 = calls w ++ trace
    ∧ setPrimarySelectionCalls trace =
      [toDataSelection (baseOf stores1 (Pipeline.partitionResults results).1)]
    ∧ primarySelection (dataStore (stores (loadDataSources sources w).2)) =
      Some (toDataSelection (baseOf stores1 (Pipeline.partitionResults results).1)).
Proof.
  intros Himport Hnone Hsucceeded Hvolume.
  rewrite loadDataSources_run. cbv zeta. rewrite load_run. cbn [stores calls].
  rewrite Himport, loadResults_run, selectPrimary_exact. cbn [stores calls].
  rewrite Hnone, (bool_decide_eq_false_2 (is_Some None)) by (by intros [? ?]).
  rewrite bool_decide_eq_false_2 by done. rewrite Hvolume. cbn [negb andb snd].
  match goal with |- context [reportErrors _ ?x] => set (w2 := x) end.
  destruct (reportErrors_calls (Pipeline.partitionResults results).2 w2)
    as (t & Hcalls & Hstores & _ & Hsel).
  exists ([CallStartLoading; CallImportDataSources sources]
          ++ [CallSetPrimarySelection
                (toDataSelection
                   (baseOf stores1 (Pipeline.partitionResults results).1))]
          ++ t ++ [CallStopLoading]).
  cbn [snd calls stores]. rewrite Hcalls, Hstores. subst w2. cbn [calls stores].
  split; [by rewrite <- !app_assoc|]. split; [|done].
  rewrite !setPrimarySelectionCalls_app, Hsel. done.
Qed.

(** X10. When the import returned and no input succeeded, or the base data
    source does not pass [isVolumeResult], [loadDataSources] never calls
    [setPrimarySelection] and leaves the stores as the import left them. *)
Theorem loadDataSources_selects_nothing (sources : list DataSource) (w : World')
  (results : list PipelineResult) (stores1 : Stores DataSelection) :
  importDataSources sources (stores w) = (Js.Return results, stores1) →
  (Pipeline.partitionResults results).1 = []
  ∨ isVolumeResult (baseOf stores1 (Pipeline.partitionResults results).1) = false →
  ∃ trace,
    calls (loadDataSources sources w).2 = calls w ++ trace
    ∧ setPrimarySelectionCalls trace = []
    ∧ stores (loadDataSources sources w).2 = stores1.
Proof.
  intros Himport Hnot.
  rewrite loadDataSources_run. cbv zeta. rewrite load_run. cbn [stores calls].
  rewrite Himport, loadResults_run, selectPrimary_exact. cbn [stores calls].
  assert (negb (bool_decide (is_Some (primarySelection (dataStore stores1))))
          && negb (bool_decide ((Pipeline.partitionResults results).1 = []))
          && isVolumeResult (baseOf stores1 (Pipeline.partitionResults results).1)
          = false) as ->.
  { destruct Hnot as [->| ->].
    - rewrite (bool_decide_eq_true_2 ([] = [])) by done. simpl.
      by rewrite andb_false_r.
    - by rewrite andb_false_r. }
  cbn [snd].
  match goal with |- context [reportErrors _ ?x] => set (w1 := x) end.
  destruct (reportErrors_calls (Pipeline.partitionResults results).2 w1)
    as (t & Hcalls & Hstores & _ & Hsel).
  exists ([CallStartLoading; CallImportDataSources sources]
          ++ t ++ [CallStopLoading]).
  cbn [snd calls stores]. rewrite Hcalls, Hstores. subst w1. cbn [calls stores].
  split; [by rewrite <- !app_assoc|]. split; [|done].
  rewrite !setPrimarySelectionCalls_app, Hsel. done.
Qed.

(** X11. When the import returned and no input failed, [loadDataSources]
    completes normally and calls neither [logError] nor [setError]: between
    the import and [stopLoading] there is at most the one call of
    [setPrimarySelection]. *)
Theorem loadDataSources_clean_batch (sources : list DataSource) (w : World')
  (results : list PipelineResult) (stores1 : Stores DataSelection) :
  importDataSources sources (stores w) = (Js.Return results, stores1) →
  (Pipeline.partitionResults results).2 = [] →
  (loadDataSources sources w).1 = Js.Return tt
  ∧ ∃ selected,
      calls (loadDataSources sources w).2
      = calls w ++ [CallStartLoading; CallImportDataSources sources]
                ++ selected ++ [CallStopLoading]
      ∧ (selected = [] ∨ ∃ selection, selected = [CallSetPrimarySelection selection]).
Proof.
  intros Himport Hnone.
  rewrite loadDataSources_run. cbv zeta. rewrite load_run. cbn [stores calls].
  rewrite Himport, loadResults_run, Hnone, reportErrors_nil, selectPrimary_exact.
  destruct (_ && _ && _); cbn [fst snd calls stores].
  - split; [done|]. eexists [_]. split; [by rewrite <- !app_assoc|].
    right. by eexists.
  - split; [done|]. exists []. split; [by rewrite <- !app_assoc|]. by left.
Qed.

(** X12. When the import returned, some input failed and every failure has an
    error record, [loadDataSources] calls [logError] once per failed input,
    in the order of the inputs and with the cause of that input's first
    error; these calls come after the selection step and are followed by the
    one call of [setError] and by [stopLoading]. *)
Theorem loadDataSources_logs_causes (sources : list DataSource) (w : World')
  (results : list PipelineResult) (stores1 : Stores DataSelection) :
  importDataSources sources (stores w) = (Js.Return results, stores1) →
  (Pipeline.partitionResults results).2 ≠ [] →
  Forall (λ r, errors r ≠ []) (Pipeline.partitionResults results).2 →
  ∃ before error,
    calls (loadDataSources sources w).2
    = calls w ++ before
      ++ (CallLogError <$> omap firstErrorCause (Pipeline.partitionResults results).2)
      ++ [CallSetError error; CallStopLoading]
    ∧ logErrorCalls before = []
    ∧ setErrorCalls before = []
    ∧ length (omap firstErrorCause (Pipeline.partitionResults results).2)
      = length (Pipeline.partitionResults results).2.
Proof.
  intros Himport Hne Hall.
  rewrite loadDataSources_run. cbv zeta. rewrite load_run. cbn [stores calls].
  rewrite Himport, loadResults_run, reportErrors_exact by done.
  rewrite selectPrimary_exact.
  assert (length (omap firstErrorCause (Pipeline.partitionResults results).2)
          = length (Pipeline.partitionResults results).2) as Hlen.
  { clear -Hall. induction Hall as [|r l Hr _ IH]; [done|].
    cbn [omap list_omap]. unfold firstErrorCause at 1.
    destruct (errors r); [done|]. simpl. by rewrite IH. }
  destruct (_ && _ && _); cbn [fst snd calls stores].
  - eexists [CallStartLoading; CallImportDataSources sources; _], _.
    split; [by rewrite <- !app_assoc|]. done.
  - exists [CallStartLoading; CallImportDataSources sources]. eexists.
    split; [by rewrite <- !app_assoc|]. done.
Qed.


End DriverMoreFacts.

Section DriverMoreExamples.
Import LoadUserFiles.
#[local] Existing Instance Examples.exampleDataSourceModule.
#[local] Existing Instance Examples.exampleImportCommonModule.
#[local] Existing Instance Examples.exampleImportDataSourcesModule.

(** X8, on an import that throws. *)
Lemma loadDataSources_too_many_files :
  loadDataSources (replicate 4 (Examples.fileDataSource "brain.nii"))
    (Examples.exampleWorld None)
  = (Js.Return tt,
     {| stores := stores (Examples.exampleWorld None);
        calls :=
          [CallStartLoading;
           CallImportDataSources (replicate 4 (Examples.fileDataSource "brain.nii"));
           CallSetError (Js.Error "too many files");
           CallStopLoading] |}).
Proof.
  exact (loadDataSources_import_failure
           (replicate 4 (Examples.fileDataSource "brain.nii"))
           (Examples.exampleWorld None) (Js.Error "too many files")
           (stores (Examples.exampleWorld None)) eq_refl).
Defined.

(** X9, on a batch of one file that fails and one that loads. *)
Lemma loadDataSources_selects_despite_failure :
  ∃ trace,
    calls (loadDataSources
             [Examples.fileDataSource "bad.nii"; Examples.fileDataSource "brain.nii"]
             (Examples.exampleWorld None)).2
    = calls (Examples.exampleWorld None) ++ trace
    ∧ setPrimarySelectionCalls trace = ["brain.nii"]
    ∧ primarySelection
        (dataStore
           (stores (loadDataSources
                      [Examples.fileDataSource "bad.nii";
                       Examples.fileDataSource "brain.nii"]
                      (Examples.exampleWorld None)).2))
      = Some "brain.nii".
Proof.
  refine (loadDataSources_selects_base
            [Examples.fileDataSource "bad.nii"; Examples.fileDataSource "brain.nii"]
            (Examples.exampleWorld None)
            (Examples.exampleImport <$>
               [Examples.fileDataSource "bad.nii"; Examples.fileDataSource "brain.nii"])
            (stores (Examples.exampleWorld None)) _ _ _ _).
  - reflexivity.
  - reflexivity.
  - vm_compute. discriminate.
  - reflexivity.
Defined.

(** X10, on a batch whose only file fails. *)
Lemma loadDataSources_nothing_to_select :
  ∃ trace,
    calls (loadDataSources [Examples.fileDataSource "bad.nii"]
             (Examples.exampleWorld None)).2
    = calls (Examples.exampleWorld None) ++ trace
    ∧ setPrimarySelectionCalls trace = []
    ∧ stores (loadDataSources [Examples.fileDataSource "bad.nii"]
                (Examples.exampleWorld None)).2
      = stores (Examples.exampleWorld None).
Proof.
  refine (loadDataSources_selects_nothing
            [Examples.fileDataSource "bad.nii"] (Examples.exampleWorld None)
            (Examples.exampleImport <$> [Examples.fileDataSource "bad.nii"])
            (stores (Examples.exampleWorld None)) _ _).
  - reflexivity.
  - left. reflexivity.
Defined.

(** X11, on a batch of one file that loads. *)
Lemma loadDataSources_clean_brain_nii :
  (loadDataSources [Examples.fileDataSource "brain.nii"]
     (Examples.exampleWorld None)).1 = Js.Return tt
  ∧ ∃ selected,
      calls (loadDataSources [Examples.fileDataSource "brain.nii"]
               (Examples.exampleWorld None)).2
      = calls (Examples.exampleWorld None)
        ++ [CallStartLoading;
            CallImportDataSources [Examples.fileDataSource "brain.nii"]]
        ++ selected ++ [CallStopLoading]
      ∧ (selected = [] ∨ ∃ selection, selected = [CallSetPrimarySelection selection]).
Proof.
  refine (loadDataSources_clean_batch
            [Examples.fileDataSource "brain.nii"] (Examples.exampleWorld None)
            (Examples.exampleImport <$> [Examples.fileDataSource "brain.nii"])
            (stores (Examples.exampleWorld None)) _ _).
  - reflexivity.
  - reflexivity.
Defined.

(** X12, on a batch of a failing file, a file without a name and a file that
    loads: two causes are logged, in this order. *)
Lemma loadDataSources_logs_two_causes :
  ∃ before error,
    calls (loadDataSources
             [Examples.fileDataSource "bad.nii";
              {| fileSrc := None; archiveSrc := None; parent := None |};
              Examples.fileDataSource "brain.nii"]
             (Examples.exampleWorld None)).2
    = calls (Examples.exampleWorld None) ++ before
      ++ [CallLogError (Js.Error "boom"); CallLogError (Js.Error "no file")]
      ++ [CallSetError error; CallStopLoading]
    ∧ logErrorCalls before = []
    ∧ setErrorCalls before = []
    ∧ length [Js.Error "boom"; Js.Error "no file"] = 2%nat.
Proof.
  refine (loadDataSources_logs_causes
            [Examples.fileDataSource "bad.nii";
             {| fileSrc := None; archiveSrc := None; parent := None |};
             Examples.fileDataSource "brain.nii"]
            (Examples.exampleWorld None)
            (Examples.exampleImport <$>
               [Examples.fileDataSource "bad.nii";
                {| fileSrc := None; archiveSrc := None; parent := None |};
                Examples.fileDataSource "brain.nii"])
            (stores (Examples.exampleWorld None)) _ _ _).
  - reflexivity.
  - vm_compute. discriminate.
  - vm_compute. repeat constructor; discriminate.
Defined.

End DriverMoreExamples.

(** ** More on archive expansion *)

Section ZipFailures.
Import Zip.
Context `{PathModule} `{JSZipModule}.



End ZipFailures.

Section ZipFailureExamples.
Import Zip.
#[local] Existing Instance Examples.examplePathModule.
#[local] Existing Instance MoreExamples.corruptJSZipModule.


End ZipFailureExamples.

(** ** More on the single-file import handler *)

Section HandlerMoreFacts.
Import ImportSingleFile.
Context {DataObject ImageStore FileStore : Type}.
Context `{!ReadersModule DataObject}.
Context `{!ImageStoreModule DataObject ImageStore}.
Context `{!FileStoreModule FileStore}.

(** X15. Whatever the data source and the stores: when [importSingleFile]
    returns a data source, it is the one it was given and nothing has
    changed; when it throws, nothing has changed either (no image is left
    registered, [done] was not called) and the error is the reader's own or
    the handler's [Data reader did not produce a valid dataset]; and when it
    ends the branch, [done] was called exactly once, with a result of type
    [image] that carries the data source it was given. *)
Theorem importSingleFile_all_or_nothing (source : DataSource)
  (s : HandlerState ImageStore FileStore) :
  match importSingleFile source s with
  | (Js.Return (Continue next), s') => next = source ∧ s' = s
  | (Js.Return Done, s') =>
      ∃ result, doneCalls s' = doneCalls s ++ [result]
                ∧ dataSource result = source ∧ dataType result = image
  | (Js.Throw e, s') =>
      s' = s
      ∧ (e = Js.Error "Data reader did not produce a valid dataset"
         ∨ ∃ src reader, fileSrc source = Some src
                         ∧ FILE_READERS !! fileType src = Some reader
                         ∧ reader (file src) = Js.Throw e)
  end.
Proof.
  unfold importSingleFile.
  destruct (fileSrc source) as [src|]; [|done].
  unfold Map_has, Map_get.
  destruct (FILE_READERS !! fileType src) as [reader|] eqn:Hreader.
  - rewrite bool_decide_eq_true_2 by eauto. simpl.
    rewrite bind_run. unfold await.
    destruct (reader (file src)) as [dataObject|e] eqn:Hread.
    + destruct (isA dataObject "vtkImageData"); [|split; [done | by left]].
      rewrite bind_run. unfold imageStore_addVTKImageData.
      destruct (addVTKImageData _ _ _) as [dataID images]. simpl.
      by eexists.
    + split; [done|]. right. by exists src, reader.
  - rewrite bool_decide_eq_false_2 by (by intros [? ?]). done.
Qed.

End HandlerMoreFacts.

(** ** The view-config store *)

Section ViewConfigFacts.
Import ViewConfigStore.
Context {ViewConfig : Type}.






End ViewConfigFacts.

Section ViewConfigExamples.
Import ViewConfigStore.



End ViewConfigExamples.
